(** * k8schema: the schema cache and its normalisation pass

    A shallow embedding of src/k8schema/__init__.py: [SchemaCache] with
    [_cleanup_schema], [_fix_kind], [update], [paths], [schemas] and
    [_get_session], the endpoints [all] and [schemas], [logging_middleware],
    and of [main] the reading of the kubeconfig and the loop [update_cache].
    The properties of the written specification are proved or refuted on
    it, followed by further properties of the code.

    - Python values decoded from JSON are the type [json]; a [dict] is an
      association list in insertion order (keys are unique in a decoded
      document).  Numbers are the integers: a document with fractional
      numbers is outside the model.
    - A character of a [string] stands for one character of the Python
      [str], so that [String.length] is [len] and iterating a string gives
      its characters: the strings are those whose code points are below
      256.  A document with another character in a string is outside the
      model (written as its bytes it would be too long for [len]).
    - A Python exception is the outcome [Raise]; the functions that mutate
      their argument return the new value.
    - [list(set(l))] is a parameter [set_order] of the functions that use
      it: the language fixes the members of the result, not their order
      ([set_order_ok]).
    - The cache is an address into a list of dict objects, so that handing
      out [self._schemas] hands out the object. *)

From Stdlib Require Import List String Ascii ZArith Bool Arith Lia Permutation.
Import ListNotations.
Local Open Scope string_scope.

(** ** Outcomes *)

Inductive exn : Type :=
| KeyError (k : string)
| TypeError
| AttributeError
| JSONDecodeError.

(** [Unmodelled]: Python defines a behaviour here that this model does not
    describe (rendering a container inside an f-string, [dict.update] with a
    sequence of pairs).  [OutOfFuel]: the recursion bound of
    [cleanup_fuel] was too small; [cleanup_schema] never yields it. *)
Inductive result (A : Type) : Type :=
| Ok (a : A)
| Raise (e : exn)
| Unmodelled
| OutOfFuel.

Arguments Ok {A} a.
Arguments Raise {A} e.
Arguments Unmodelled {A}.
Arguments OutOfFuel {A}.

Definition bind {A B : Type} (m : result A) (k : A -> result B) : result B :=
  match m with
  | Ok a => k a
  | Raise e => Raise e
  | Unmodelled => Unmodelled
  | OutOfFuel => OutOfFuel
  end.

Notation "x <- m ;; k" := (bind m (fun x => k))
  (at level 61, m at next level, right associativity).

(** from [H : (x <- m ;; k x) = Ok b] to [E : m = Ok a] and [H : k a = Ok b] *)
Ltac bind_inv H :=
  let a := fresh "a" in
  let E := fresh "E" in
  match type of H with
  | bind ?m _ = Ok _ =>
      destruct m as [a| | |] eqn:E;
      [cbn [bind] in H | cbn [bind] in H; discriminate H ..]
  end.

Fixpoint mapM {A B : Type} (f : A -> result B) (l : list A) : result (list B) :=
  match l with
  | [] => Ok []
  | x :: t => y <- f x ;; ys <- mapM f t ;; Ok (y :: ys)
  end.

(** ** Strings: [in], [str.replace] *)

Fixpoint starts_with (p s : string) : bool :=
  match p with
  | EmptyString => true
  | String a p' =>
      match s with
      | EmptyString => false
      | String b s' => Ascii.eqb a b && starts_with p' s'
      end
  end.

(** [p in s] for two strings. *)
Fixpoint occurs (p s : string) : bool :=
  starts_with p s
  || match s with
     | EmptyString => false
     | String _ t => occurs p t
     end.

(** a string with no '#' in it *)
Fixpoint no_hash (q : string) : bool :=
  match q with
  | EmptyString => true
  | String a q' => negb (Ascii.eqb a "#") && no_hash q'
  end.

Fixpoint drop (n : nat) (s : string) : string :=
  match n, s with
  | S k, String _ t => drop k t
  | _, _ => s
  end.

(** [s.replace(old, new)] for a non-empty [old]: a scan from the left; at a
    match [new] is emitted and the scan resumes after the match ([skip]
    counts the characters of the match still to pass over). *)
Fixpoint replace_go (old new : string) (skip : nat) (s : string) : string :=
  match s with
  | EmptyString => EmptyString
  | String c t =>
      match skip with
      | S k => replace_go old new k t
      | O =>
          if starts_with old s
          then new ++ replace_go old new (String.length old - 1) t
          else String c (replace_go old new 0 t)
      end
  end.

Definition str_replace (old new s : string) : string := replace_go old new 0 s.

Definition components_prefix : string := "#/components/schemas/".
Definition definitions_prefix : string := "#/definitions/".

(** [v["$ref"].replace("#/components/schemas/", "#/definitions/")] *)
Definition rewrite_ref_string (s : string) : string :=
  str_replace components_prefix definitions_prefix s.

(** ** JSON values and dicts *)

Unset Elimination Schemes.
Inductive json : Type :=
| JNull
| JBool (b : bool)
| JInt (z : Z)
| JStr (s : string)
| JArr (l : list json)
| JObj (d : list (string * json)).
Set Elimination Schemes.

Definition dict : Type := list (string * json).

Fixpoint dict_get (k : string) (d : dict) : option json :=
  match d with
  | [] => None
  | (k', x) :: t => if String.eqb k k' then Some x else dict_get k t
  end.

Definition dict_mem (k : string) (d : dict) : bool :=
  match dict_get k d with Some _ => true | None => false end.

(** [d.pop(k, "")] with the popped value dropped. *)
Fixpoint dict_pop (k : string) (d : dict) : dict :=
  match d with
  | [] => []
  | (k', x) :: t =>
      if String.eqb k k' then dict_pop k t else (k', x) :: dict_pop k t
  end.

(** [d[k] = x]: an existing key keeps its place, a new key goes last. *)
Fixpoint dict_set (k : string) (x : json) (d : dict) : dict :=
  match d with
  | [] => [(k, x)]
  | (k', y) :: t =>
      if String.eqb k k' then (k', x) :: t else (k', y) :: dict_set k x t
  end.

Definition dict_keys (d : dict) : list string := map fst d.
Definition dict_values (d : dict) : list json := map snd d.

(** [d.update(e)] for a dict [e]. *)
Definition dict_merge (d e : dict) : dict :=
  fold_left (fun acc kv => dict_set (fst kv) (snd kv) acc) e d.

(** Python's [==] on decoded JSON: [True == 1], dicts compare without
    regard to order. *)
Fixpoint py_eq (a b : json) {struct a} : bool :=
  match a, b with
  | JNull, JNull => true
  | JBool x, JBool y => Bool.eqb x y
  | JBool x, JInt y => Z.eqb (Z.b2z x) y
  | JInt x, JBool y => Z.eqb x (Z.b2z y)
  | JInt x, JInt y => Z.eqb x y
  | JStr x, JStr y => String.eqb x y
  | JArr xs, JArr ys =>
      (fix go (xs ys : list json) : bool :=
         match xs, ys with
         | [], [] => true
         | x :: xs', y :: ys' => py_eq x y && go xs' ys'
         | _, _ => false
         end) xs ys
  | JObj d, JObj e =>
      Nat.eqb (List.length d) (List.length e)
      && (fix go (d : list (string * json)) : bool :=
            match d with
            | [] => true
            | (k, x) :: d' =>
                match dict_get k e with
                | Some y => py_eq x y
                | None => false
                end && go d'
            end) d
  | _, _ => false
  end.

(** [x in l] for a list [l]. *)
Definition list_contains (x : json) (l : list json) : bool :=
  existsb (py_eq x) l.

(** Values [set()] accepts: everything but lists and dicts. *)
Definition hashable (x : json) : bool :=
  match x with
  | JArr _ | JObj _ => false
  | _ => true
  end.

(** ** Python's dynamic operations on a decoded value *)

(** [len(x)]; for a string, the number of its characters (one code point
    each, see the head of the file) *)
Definition py_len (x : json) : result nat :=
  match x with
  | JStr s => Ok (String.length s)
  | JArr l => Ok (List.length l)
  | JObj d => Ok (List.length d)
  | _ => Raise TypeError
  end.

(** [x[k]] for a string key [k] *)
Definition py_getitem (x : json) (k : string) : result json :=
  match x with
  | JObj d =>
      match dict_get k d with
      | Some y => Ok y
      | None => Raise (KeyError k)
      end
  | _ => Raise TypeError
  end.

(** [k in x] for a string [k] *)
Definition py_in (k : string) (x : json) : result bool :=
  match x with
  | JObj d => Ok (dict_mem k d)
  | JArr l => Ok (list_contains (JStr k) l)
  | JStr s => Ok (occurs k s)
  | _ => Raise TypeError
  end.

Fixpoint chars (s : string) : list json :=
  match s with
  | EmptyString => []
  | String c t => JStr (String c EmptyString) :: chars t
  end.

(** the items [for k in x] visits *)
Definition py_iter (x : json) : result (list json) :=
  match x with
  | JArr l => Ok l
  | JObj d => Ok (map JStr (dict_keys d))
  | JStr s => Ok (chars s)
  | _ => Raise TypeError
  end.

(** the nesting of dicts below a value; lists add no level *)
Fixpoint depth (x : json) : nat :=
  match x with
  | JObj d => S (list_max (map (fun kv => depth (snd kv)) d))
  | JArr l => list_max (map depth l)
  | _ => 0
  end.

Definition vdepth (d : dict) : nat := list_max (map (fun kv => depth (snd kv)) d).

(** ** [SchemaCache._fix_kind] *)

Definition gvk_key : string := "x-kubernetes-group-version-kind".

(** the loop of lines 84-86, [enum] being the list built so far *)
Fixpoint collect_kinds (items enum : list json) : result (list json) :=
  match items with
  | [] => Ok enum
  | k :: t =>
      kind <- py_getitem k "kind" ;;
      collect_kinds t (if list_contains kind enum then enum else enum ++ [kind])
  end.

(** lines 92-95; an f-string of two strings is their concatenation around
    the slash *)
Definition api_version_of (k : json) : result json :=
  group <- py_getitem k "group" ;;
  n <- py_len group ;;
  if (0 <? n)%nat then
    version <- py_getitem k "version" ;;
    match group, version with
    | JStr g, JStr ver => Ok (JStr (g ++ "/" ++ ver))
    | _, _ => Unmodelled
    end
  else py_getitem k "version".

(** the loop of lines 90-96 *)
Fixpoint collect_api_versions (items enum : list json) : result (list json) :=
  match items with
  | [] => Ok enum
  | k :: t =>
      group <- py_getitem k "group" ;;
      if list_contains group enum then collect_api_versions t enum
      else
        apiVersion <- api_version_of k ;;
        collect_api_versions t (enum ++ [apiVersion])
  end.

(** One of the two blocks of [_fix_kind] (lines 82-86 and 88-96):
    [if field in v["properties"]: v["properties"][field]["enum"] = [...]]. *)
Definition fix_property (field : string)
    (collect : list json -> list json -> result (list json))
    (v : dict) : result dict :=
  props <- py_getitem (JObj v) "properties" ;;
  present <- py_in field props ;;
  if present then
    node <- py_getitem props field ;;
    match props, node with
    | JObj pd, JObj nd =>
        gvk <- py_getitem (JObj v) gvk_key ;;
        items <- py_iter gvk ;;
        enum <- collect items [] ;;
        Ok (dict_set "properties"
              (JObj (dict_set field (JObj (dict_set "enum" (JArr enum) nd)) pd))
              v)
    | _, _ => Raise TypeError
    end
  else Ok v.

Definition fix_kind (v : dict) : result dict :=
  if dict_mem gvk_key v then
    v1 <- fix_property "kind" collect_kinds v ;;
    fix_property "apiVersion" collect_api_versions v1
  else Ok v.

(** ** [SchemaCache._cleanup_schema] *)

(** lines 57-63 *)
Definition hoist_allOf (v : dict) : result dict :=
  match dict_get "allOf" v with
  | Some (JArr [e]) =>
      n <- py_len e ;;
      if (n =? 1)%nat then
        r <- py_getitem e "$ref" ;;
        Ok (dict_set "$ref" r (dict_pop "allOf" v))
      else Ok v
  | _ => Ok v
  end.

(** lines 66-67 *)
Definition rewrite_ref (v : dict) : dict :=
  match dict_get "$ref" v with
  | Some (JStr s) => dict_set "$ref" (JStr (rewrite_ref_string s)) v
  | _ => v
  end.

Definition preserve_key : string := "x-kubernetes-preserve-unknown-fields".

(** lines 130-131 *)
Definition close_schema (v : dict) : dict :=
  if dict_mem preserve_key v then v
  else dict_set "additionalProperties" (JBool false) v.

(** lines 76-78 for one element of a list value, [rec] being the recursive
    call *)
Definition cleanup_element (rec : dict -> result dict) (y : json) : result json :=
  match y with
  | JObj d => d' <- rec d ;; Ok (JObj d')
  | _ => Ok y
  end.

(** lines 73-78 for one value of the node *)
Definition cleanup_value (rec : dict -> result dict) (x : json) : result json :=
  match x with
  | JObj d => d' <- rec d ;; Ok (JObj d')
  | JArr l => l' <- mapM (cleanup_element rec) l ;; Ok (JArr l')
  | _ => Ok x
  end.

(** the loop of line 72 *)
Definition cleanup_items (rec : dict -> result dict) (v : dict) : result dict :=
  mapM (fun kv => x <- cleanup_value rec (snd kv) ;; Ok (fst kv, x)) v.

Section Cleanup.

(** [set_order l] is [list(set(l))] for a list [l] of hashable values: the
    members of the set in the order the interpreter iterates it. *)
Variable set_order : list json -> list json.

(** lines 69-70 *)
Definition dedup_enum (v : dict) : result dict :=
  match dict_get "enum" v with
  | Some (JArr l) =>
      if forallb hashable l
      then Ok (dict_set "enum" (JArr (set_order l)) v)
      else Raise TypeError
  | _ => Ok v
  end.

(** lines 54-70: what one call does to the node itself *)
Definition cleanup_node (v : dict) : result dict :=
  v1 <- hoist_allOf (dict_pop "default" v) ;;
  dedup_enum (rewrite_ref v1).

(** [n] bounds the depth of the recursive calls. *)
Fixpoint cleanup_fuel (n : nat) (v : dict) : result dict :=
  match n with
  | O => OutOfFuel
  | S n' =>
      v' <- cleanup_node v ;;
      cleanup_items (cleanup_fuel n') v'
  end.

Definition cleanup_schema (v : dict) : result dict :=
  cleanup_fuel (depth (JObj v)) v.

(** ** The normalisation loop of [update] (lines 127-132) *)

Definition normalise_value (x : json) : result json :=
  match x with
  | JObj v =>
      v1 <- fix_kind v ;;
      v2 <- cleanup_schema (close_schema v1) ;;
      Ok (JObj v2)
  | _ => Ok x
  end.

Definition normalise (schemas : dict) : result dict :=
  mapM (fun kv => x <- normalise_value (snd kv) ;; Ok (fst kv, x)) schemas.

End Cleanup.

(** ** The cluster as [update] sees it *)

(** [body] is the decoded response body, [None] when it is not JSON
    ([resp.json()] raises). *)
Record response : Type := { status_code : Z; body : option json }.

(** [catalog]: the answer to [GET {server}/openapi/v3];
    [document p]: the answer to [GET {server}/openapi/v3/{p}]. *)
Record cluster : Type := { catalog : response; document : string -> response }.

Definition resp_json (r : response) : result json :=
  match body r with
  | Some j => Ok j
  | None => Raise JSONDecodeError
  end.

(** [x.get(k, {})] *)
Definition py_get (x : json) (k : string) : result json :=
  match x with
  | JObj d =>
      match dict_get k d with
      | Some y => Ok y
      | None => Ok (JObj [])
      end
  | _ => Raise AttributeError
  end.

(** [list(x.keys())] *)
Definition py_keys (x : json) : result (list string) :=
  match x with
  | JObj d => Ok (dict_keys d)
  | _ => Raise AttributeError
  end.

(** [d.update(x)]: a dict is merged in, an empty sequence adds nothing, a
    value that cannot be iterated raises; a non-empty sequence is read by
    Python as key/value pairs, which this model leaves out. *)
Definition py_update (d : dict) (x : json) : result dict :=
  match x with
  | JObj e => Ok (dict_merge d e)
  | JArr [] => Ok d
  | JStr EmptyString => Ok d
  | JArr _ | JStr _ => Unmodelled
  | _ => Raise TypeError
  end.

(** line 123: [resp.json().get("components", {}).get("schemas", {})] *)
Definition path_schemas (resp : response) : result json :=
  doc <- resp_json resp ;;
  components <- py_get doc "components" ;;
  py_get components "schemas".

(** lines 110-124, [acc] being [self._schemas] as filled so far *)
Fixpoint fetch_paths (c : cluster) (paths : list string) (acc : dict)
  : result dict :=
  match paths with
  | [] => Ok acc
  | path :: t =>
      let resp := document c path in
      if (status_code resp =? 200)%Z then
        schemas <- path_schemas resp ;;
        acc' <- py_update acc schemas ;;
        fetch_paths c t acc'
      else fetch_paths c t acc
  end.

(** ** The cache object *)

(** The dict objects created so far, by address, and the address bound to
    the attribute [self._schemas].  Readers are handed that address. *)
Record SchemaCache : Type := { objects : list dict; _schemas : nat }.

Definition deref (sc : SchemaCache) (r : nat) : dict := nth r (objects sc) [].

(** the mapping the attribute is bound to *)
Definition store (sc : SchemaCache) : dict := deref sc (_schemas sc).

(** [SchemaCache.__init__] *)
Definition init : SchemaCache := {| objects := [[]]; _schemas := 0 |}.

(** [self._schemas = d] for a new dict object holding [d] *)
Definition rebind (sc : SchemaCache) (d : dict) : SchemaCache :=
  {| objects := objects sc ++ [d]; _schemas := List.length (objects sc) |}.

(** the [paths] property: [list(self._schemas.keys())], a new list *)
Definition paths (sc : SchemaCache) : list string := dict_keys (store sc).

(** the [schemas] property: [return self._schemas], the object itself *)
Definition schemas (sc : SchemaCache) : nat := _schemas sc.

Fixpoint write_at (r : nat) (d : dict) (objs : list dict) : list dict :=
  match objs, r with
  | [], _ => []
  | _ :: t, O => d :: t
  | o :: t, S r' => o :: write_at r' d t
  end.

(** a holder of the reference [r] changes the dict it points to by [f] *)
Definition mutate (r : nat) (f : dict -> dict) (sc : SchemaCache) : SchemaCache :=
  {| objects := write_at r (f (deref sc r)) (objects sc);
     _schemas := _schemas sc |}.

(** the dict the attribute is bound to gets the content [d] *)
Definition fill (sc : SchemaCache) (d : dict) : SchemaCache :=
  mutate (_schemas sc) (fun _ => d) sc.

Section Update.

Variable set_order : list json -> list json.

(** [SchemaCache.update]: line 100 binds the attribute to a new empty
    dict, which the rest of the cycle fills and normalises in place.  The
    outcome [Raise] stands for an exception leaving [update], the
    attribute then staying bound to the new, partly filled dict. *)
Definition update (c : cluster) (sc : SchemaCache) : result SchemaCache :=
  let sc0 := rebind sc [] in
  if (status_code (catalog c) =? 200)%Z then
    doc <- resp_json (catalog c) ;;
    index <- py_get doc "paths" ;;
    keys <- py_keys index ;;
    merged <- fetch_paths c keys [] ;;
    final <- normalise set_order merged ;;
    Ok (fill sc0 final)
  else Ok sc0.

End Update.

(** ** Two iteration orders for a set *)

(** members in the order they were first inserted *)
Fixpoint first_seen (l seen : list json) : list json :=
  match l with
  | [] => seen
  | x :: t => first_seen t (if list_contains x seen then seen else seen ++ [x])
  end.

Definition insertion_order (l : list json) : list json := first_seen l [].
Definition reverse_order (l : list json) : list json := rev (first_seen l []).

(** no two members of [l] are equal in Python's sense *)
Fixpoint py_distinct (l : list json) : bool :=
  match l with
  | [] => true
  | x :: t => negb (list_contains x t) && py_distinct t
  end.

(** What [list(set(l))] guarantees for hashable members: nothing new, nothing
    lost, no two equal members. *)
Definition set_order_ok (set_order : list json -> list json) : Prop :=
  forall l, forallb hashable l = true ->
    incl (set_order l) l
    /\ (forall x, In x l -> list_contains x (set_order l) = true)
    /\ py_distinct (set_order l) = true.


(** ** Reading a result *)

Fixpoint path_get (ks : list string) (x : json) : option json :=
  match ks with
  | [] => Some x
  | k :: t =>
      match x with
      | JObj d =>
          match dict_get k d with
          | Some y => path_get t y
          | None => None
          end
      | _ => None
      end
  end.

Definition gvk (group version kind : string) : json :=
  JObj [("group", JStr group); ("version", JStr version); ("kind", JStr kind)].

(** the keys the steps of [_cleanup_schema] do not look at *)
Definition plain_key (k : string) : Prop :=
  k <> "default" /\ k <> "allOf" /\ k <> "$ref" /\ k <> "enum".

(** ** [$ref] strings *)

Definition own_ref (d : dict) : list string :=
  match dict_get "$ref" d with
  | Some (JStr s) => [s]
  | _ => []
  end.

(** every [$ref] string anywhere below [x] *)
Fixpoint all_refs (x : json) : list string :=
  match x with
  | JObj d => own_ref d ++ flat_map (fun kv => all_refs (snd kv)) d
  | JArr l => flat_map all_refs l
  | _ => []
  end.

(** the [$ref] strings of the dicts [_cleanup_schema] is called on, when it
    is called on the dict [x]: values that are dicts, and dicts that are
    elements of a value that is a list *)
Fixpoint visited_refs (x : json) : list string :=
  match x with
  | JObj d =>
      own_ref d
      ++ flat_map
           (fun kv =>
              match snd kv with
              | JObj _ => visited_refs (snd kv)
              | JArr l =>
                  flat_map
                    (fun y =>
                       match y with
                       | JObj _ => visited_refs y
                       | _ => []
                       end) l
              | _ => []
              end) d
  | _ => []
  end.

Definition set_refs (schemas : dict) : list string :=
  flat_map (fun kv => all_refs (snd kv)) schemas.

(** ** Sample nodes, clusters and caches *)

Definition ref_node (target : string) : json := JObj [("$ref", JStr target)].

(** [{"allOf": [{"$ref": "#/components/schemas/Foo"}]}] *)
Definition allOf_ref_node : dict :=
  [("allOf", JArr [ref_node "#/components/schemas/Foo"])].

(** [{"allOf": [{"$ref": ".../Foo"}, {"$ref": ".../Bar"}]}] *)
Definition allOf_two_node : dict :=
  [("allOf", JArr [ref_node "#/components/schemas/Foo";
                   ref_node "#/components/schemas/Bar"])].

(** [{"allOf": [{"type": "object"}]}] *)
Definition allOf_type_node : dict :=
  [("allOf", JArr [JObj [("type", JStr "object")]])].


(** [{"items": [[{"$ref": "#/components/schemas/Foo"}]]}] *)
Definition nested_array_node : dict :=
  [("items", JArr [JArr [ref_node "#/components/schemas/Foo"]])].

Definition empty_properties : json :=
  JObj [("kind", JObj []); ("apiVersion", JObj [])].

(** the node of the spec's fixKind example *)
Definition deployment_pod_node : dict :=
  [(gvk_key, JArr [gvk "apps" "v1" "Deployment"; gvk "" "v1" "Pod"]);
   ("properties", empty_properties)].

(** two triples of one group and one version *)
Definition same_version_node : dict :=
  [(gvk_key, JArr [gvk "apps" "v1" "Deployment"; gvk "apps" "v1" "Scale"]);
   ("properties", empty_properties)].

(** a group named as an earlier version *)
Definition group_named_v1_node : dict :=
  [(gvk_key, JArr [gvk "" "v1" "Pod"; gvk "v1" "v2" "Odd"]);
   ("properties", empty_properties)].

(** a node with the triples and no [properties] *)
Definition no_properties_node : dict :=
  [(gvk_key, JArr [gvk "apps" "v1" "Deployment"])].

Definition answer (code : Z) (j : json) : response :=
  {| status_code := code; body := Some j |}.

Definition not_json (code : Z) : response :=
  {| status_code := code; body := None |}.

Definition schemas_doc (name : string) : json :=
  JObj [("components",
         JObj [("schemas", JObj [(name, JObj [("type", JStr "object")])])])].

Definition three_paths : json :=
  JObj [("paths", JObj [("api/v1", JObj []); ("apis/apps/v1", JObj []);
                        ("apis/batch/v1", JObj [])])].

(** the catalog cannot be fetched *)
Definition down_cluster : cluster :=
  {| catalog := not_json 503; document := fun _ => not_json 503 |}.

(** three paths, the second answers 404 *)
Definition one_missing_cluster : cluster :=
  {| catalog := answer 200 three_paths;
     document := fun p =>
       if String.eqb p "api/v1" then answer 200 (schemas_doc "Pod")
       else if String.eqb p "apis/batch/v1" then answer 200 (schemas_doc "Job")
       else not_json 404 |}.

(** three paths, the second answers 200 with a body that is not JSON *)
Definition one_garbled_cluster : cluster :=
  {| catalog := answer 200 three_paths;
     document := fun p =>
       if String.eqb p "api/v1" then answer 200 (schemas_doc "Pod")
       else if String.eqb p "apis/batch/v1" then answer 200 (schemas_doc "Job")
       else not_json 200 |}.

(** a cache whose store holds one definition *)
Definition pod_cache : SchemaCache :=
  {| objects := [[("Pod", JObj [("type", JStr "object")])]]; _schemas := 0 |}.

(** [d["Injected"] = None], done by a caller on the dict it was handed *)
Definition inject (d : dict) : dict := dict_set "Injected" JNull d.

Definition two_definitions : dict :=
  [("Foo", JObj allOf_ref_node); ("Deep", JObj nested_array_node)].

(** ** Nodes the pass leaves as they are *)


(** [p] holds of every dict [_cleanup_schema] visits when called on [x] *)
Fixpoint visited_all (p : dict -> bool) (x : json) : bool :=
  match x with
  | JObj d =>
      p d
      && forallb
           (fun kv =>
              match snd kv with
              | JObj _ => visited_all p (snd kv)
              | JArr l =>
                  forallb
                    (fun y =>
                       match y with
                       | JObj _ => visited_all p y
                       | _ => true
                       end) l
              | _ => true
              end) d
  | _ => true
  end.


Section Settled.

Variable set_order : list json -> list json.





End Settled.



(** [{"enum": [7, 15]}] *)
Definition enum_node : dict := [("enum", JArr [JInt 7; JInt 15])].






(** * The rest of the module *)

(** ** What [_cleanup_schema] leaves behind *)

(** [d] has no key [default] *)
Definition no_default (d : dict) : bool := negb (dict_mem "default" d).

(** an [enum] of [d] that is a list holds hashable values, no two of them
    equal *)
Definition enum_distinct (d : dict) : bool :=
  match dict_get "enum" d with
  | Some (JArr l) => forallb hashable l && py_distinct l
  | _ => true
  end.

(** [d] has none of the four keys the steps of lines 54-70 look at *)
Definition no_special_key (d : dict) : bool :=
  negb (dict_mem "default" d) && negb (dict_mem "allOf" d)
  && negb (dict_mem "$ref" d) && negb (dict_mem "enum" d).

(** a value the loop of lines 72-78 passes over: not a dict, and no list
    with a dict among its elements *)
Definition passed_over (x : json) : bool :=
  match x with
  | JObj _ => false
  | JArr l => forallb (fun y => match y with JObj _ => false | _ => true end) l
  | _ => true
  end.

(** ** What [_fix_kind] reads from the triples *)

(** [[k["kind"] for k in items]] *)
Definition kinds_of (items : list json) : result (list json) :=
  mapM (fun k => py_getitem k "kind") items.

(** [[k["group"] for k in items]] *)
Definition groups_of (items : list json) : result (list json) :=
  mapM (fun k => py_getitem k "group") items.

(** the [apiVersion] string of every triple, lines 92-95 *)
Definition api_versions_of (items : list json) : result (list json) :=
  mapM api_version_of items.

(** ** More sample nodes *)

(** a schema with a default of its own, a property named [default] and a
    default inside a property *)
Definition defaults_node : dict :=
  [("default", JInt 1);
   ("properties",
    JObj [("default", JObj [("type", JStr "string")]);
          ("name", JObj [("type", JStr "string"); ("default", JStr "x")])])].

(** [{"enum": [1, true, "a", "a"], "items": [{"enum": [0, false]}]}] *)
Definition mixed_enum_node : dict :=
  [("enum", JArr [JInt 1; JBool true; JStr "a"; JStr "a"]);
   ("items", JArr [JObj [("enum", JArr [JInt 0; JBool false])]])].

(** [{"type": "string", "enum": [{"a": 1}]}] *)
Definition dict_enum_node : dict :=
  [("type", JStr "string"); ("enum", JArr [JObj [("a", JInt 1)]])].

(** [{"$ref": "#/components/schemas/Old", "description": "d",
      "allOf": [{"$ref": "#/components/schemas/New"}]}] *)
Definition ref_and_allOf_node : dict :=
  [("$ref", JStr "#/components/schemas/Old"); ("description", JStr "d");
   ("allOf", JArr [ref_node "#/components/schemas/New"])].

(** [{"type": "object", "required": ["a"],
      "properties": {"a": {"type": "array", "items": [{"type": "string"}]}}}] *)
Definition plain_node : dict :=
  [("type", JStr "object"); ("required", JArr [JStr "a"]);
   ("properties",
    JObj [("a", JObj [("type", JStr "array");
                      ("items", JArr [JObj [("type", JStr "string")]])])])].

(** three triples, two of them with one kind *)
Definition scale_node : dict :=
  [("description", JStr "scale");
   (gvk_key, JArr [gvk "apps" "v1" "Scale"; gvk "autoscaling" "v1" "Scale";
                   gvk "apps" "v1beta1" "Scale"]);
   ("properties",
    JObj [("kind", JObj [("type", JStr "string"); ("enum", JArr [JStr "Old"])]);
          ("spec", JObj [("type", JStr "object")]);
          ("apiVersion", JObj [])])].

(** a definition that is closed by the pass although it came with a schema
    for its additional properties, and one that asks to be left open *)
Definition labels_node : dict :=
  [("type", JStr "object");
   ("additionalProperties", JObj [("type", JStr "string")])].

Definition open_node : dict :=
  [("type", JStr "object"); (preserve_key, JBool true)].

(** two paths that define [Status], the later one with a description *)
Definition status_doc (description : string) : json :=
  JObj [("components",
         JObj [("schemas",
                JObj [("Status", JObj [("description", JStr description)])])])].

Definition two_paths : json :=
  JObj [("paths", JObj [("api/v1", JObj []); ("apis/apps/v1", JObj [])])].

Definition status_twice_cluster : cluster :=
  {| catalog := answer 200 two_paths;
     document := fun p =>
       if String.eqb p "api/v1" then answer 200 (status_doc "core")
       else answer 200 (status_doc "apps") |}.

(** ** The HTTP application (lines 145-175) *)

Module App.

(** [all()], lines 146-150: one reference for every name [sc.paths] lists *)
Definition all (sc : SchemaCache) : json :=
  JObj [("oneOf",
         JArr (map (fun path =>
                      JObj [("$ref",
                             JStr ("_definitions.json#definitions/" ++ path))])
                   (paths sc)))].

(** [schemas()], lines 154-155; the body of the answer is rendered from the
    dict [sc.schemas] returned *)
Definition schemas (sc : SchemaCache) : json :=
  JObj [("definitions", JObj (deref sc (schemas sc)))].

(** the request as the middleware reads it; [client] is [None] when the
    server knows no peer address *)
Record Request : Type :=
  { url : string; method : string; client : option (string * Z) }.

Record Response : Type := { status_code : Z }.

(** what a [raise] carries: an instance of [Exception], or an instance of
    another class under [BaseException] *)
Inductive raised : Type :=
| Exception (name : string)
| BaseException (name : string).

Inductive log_line : Type :=
| log_error (event : string) (err : raised)
| log_info (event : string) (url : string) (status_code : Z) (method : string)
    (client_ip : string) (client_port : Z).

(** how a block of statements ends *)
Inductive completion : Type :=
| Normal
| Returned (r : Response)
| Raised (e : raised).

(** the local [response] and the lines logged so far *)
Record frame : Type := { response : Response; log : list log_line }.

Definition block : Type := frame -> frame * completion.

(** [try: body / except Exception as err: handler err / finally: final]:
    the handler runs for a raised instance of [Exception], [final] runs in
    every case, and a [return] or [raise] that ends [final] takes the place
    of whatever was pending *)
Definition try_except_finally
    (body : block) (handler : raised -> block) (final : block) : block :=
  fun f =>
    let (f1, c1) := body f in
    let (f2, c2) :=
      match c1 with
      | Raised (Exception name) => handler (Exception name) f1
      | _ => (f1, c1)
      end in
    let (f3, c3) := final f2 in
    (f3, match c3 with Normal => c2 | _ => c3 end).

Definition say (line : log_line) (f : frame) : frame :=
  {| response := response f; log := (log f ++ [line])%list |}.

(** [logging_middleware], lines 159-175; [call_next] is what
    [await call_next(request)] does: it returns a response or raises *)
Definition logging_middleware (request : Request) (call_next : Response + raised)
  : frame * completion :=
  try_except_finally
    (fun f =>
       match call_next with
       | inl r => ({| response := r; log := log f |}, Normal)
       | inr e => (f, Raised e)
       end)
    (fun err f => (say (log_error "Uncaught exception" err) f, Raised err))
    (fun f =>
       match client request with
       | Some (host, port) =>
           (say (log_info "HTTP request" (url request)
                   (status_code (response f)) (method request) host port) f,
            Returned (response f))
       | None => (f, Raised (Exception "AttributeError"))
       end)
    {| response := {| status_code := 500 |}; log := [] |}.

End App.

(** ** [main]: the kubeconfig (lines 197-221) *)

(** the fields are what the kubeconfig holds under the four keys, [JNull]
    for [None] *)
Record Auth : Type :=
  { ca_cert : json; client_cert : json; client_key : json; token : json }.

(** [x.get(k)] *)
Definition py_get_none (x : json) (k : string) : result json :=
  match x with
  | JObj d =>
      match dict_get k d with
      | Some y => Ok y
      | None => Ok JNull
      end
  | _ => Raise AttributeError
  end.

(** [d[k]] for a dict [d] with string keys and any [k]; a key that is
    hashable and not a string is missed with a [KeyError] that [exn] has no
    name for *)
Definition py_lookup (d : dict) (k : json) : result json :=
  match k with
  | JStr s =>
      match dict_get s d with
      | Some y => Ok y
      | None => Raise (KeyError s)
      end
  | JArr _ | JObj _ => Raise TypeError
  | _ => Unmodelled
  end.

(** [{c["name"]: c[field] for c in items}], [acc] being the dict built so
    far; a name that is hashable and not a string gives a dict outside
    [dict] *)
Fixpoint index_by (field : string) (items : list json) (acc : dict)
  : result dict :=
  match items with
  | [] => Ok acc
  | c :: t =>
      name <- py_getitem c "name" ;;
      x <- py_getitem c field ;;
      match name with
      | JStr n => index_by field t (dict_set n x acc)
      | JArr _ | JObj _ => Raise TypeError
      | _ => Unmodelled
      end
  end.

(** lines 199-218, [kube] being what [yaml.safe_load] returned *)
Definition load_kube (kube : json) : result (json * Auth) :=
  cs <- py_getitem kube "contexts" ;;
  cs_items <- py_iter cs ;;
  contexts <- index_by "context" cs_items [] ;;
  cl <- py_getitem kube "clusters" ;;
  cl_items <- py_iter cl ;;
  clusters <- index_by "cluster" cl_items [] ;;
  us <- py_getitem kube "users" ;;
  us_items <- py_iter us ;;
  users <- index_by "user" us_items [] ;;
  ctx <- py_getitem kube "current-context" ;;
  context <- py_lookup contexts ctx ;;
  userName <- py_getitem context "user" ;;
  context' <- py_lookup contexts ctx ;;
  clusterName <- py_getitem context' "cluster" ;;
  user <- py_lookup users userName ;;
  cluster <- py_lookup clusters clusterName ;;
  server <- py_getitem cluster "server" ;;
  ca <- py_get_none cluster "certificate-authority" ;;
  client_key <- py_get_none user "client-key" ;;
  client_cert <- py_get_none user "client-certificate" ;;
  token <- py_get_none user "token" ;;
  Ok (server,
      {| ca_cert := ca; client_cert := client_cert;
         client_key := client_key; token := token |}).

(** lines 197-224: [None] is the [return] of line 221, after a [KeyError];
    any other exception leaves [main]; otherwise the cache is created for
    the server and the credentials read *)
Definition main (kube : json) : result (option (json * Auth * SchemaCache)) :=
  match load_kube kube with
  | Ok (server, auth) => Ok (Some (server, auth, init))
  | Raise (KeyError _) => Ok None
  | Raise e => Raise e
  | Unmodelled => Unmodelled
  | OutOfFuel => OutOfFuel
  end.

(** the entry named [n] in a section of the kubeconfig has [x] under
    [field] *)
Definition entry (field : string) (section : json) (n : string) (x : json)
  : Prop :=
  exists items c,
    py_iter section = Ok items /\ In c items
    /\ py_getitem c "name" = Ok (JStr n) /\ py_getitem c field = Ok x.

(** ** [_get_session] (lines 39-50) *)

(** the settings of a [requests.Session] that the method touches *)
Record Session : Type :=
  { verify : json; cert : option (json * json); headers : dict }.

(** the truth value of a decoded value *)
Definition py_truthy (x : json) : bool :=
  match x with
  | JNull => false
  | JBool b => b
  | JInt z => negb (z =? 0)%Z
  | JStr s => negb (String.eqb s "")
  | JArr l => negb (Nat.eqb (List.length l) 0)
  | JObj d => negb (Nat.eqb (List.length d) 0)
  end.

(** lines 41-48, [fresh] being the session [requests.Session()] returns;
    the header of a token that is not a string is left out of the model *)
Definition _get_session (auth : Auth) (fresh : Session) : result Session :=
  let s1 :=
    if py_truthy (ca_cert auth)
    then {| verify := ca_cert auth; cert := cert fresh; headers := headers fresh |}
    else fresh in
  let s2 :=
    if py_truthy (client_cert auth) && py_truthy (client_key auth)
    then {| verify := verify s1;
            cert := Some (client_cert auth, client_key auth);
            headers := headers s1 |}
    else s1 in
  if py_truthy (token auth) then
    match token auth with
    | JStr t =>
        Ok {| verify := verify s2; cert := cert s2;
              headers := dict_set "Authorization" (JStr ("Bearer " ++ t))
                           (headers s2) |}
    | _ => Unmodelled
    end
  else Ok s2.

(** ** [update_cache] (lines 226-232) *)

Section Refresher.

(** the clock: its readings, [t > u], [t + interval] and [0.0] *)
Variable time : Type.
Variable later : time -> time -> bool.
Variable plus : time -> Z -> time.
Variable zero : time.

Variable set_order : list json -> list json.

(** what one turn of the loop meets: the flag [running], the clock at line
    229, and, for an update, the cluster and the clock at line 231 *)
Record turn : Type :=
  { is_set : bool; now : time; cluster_now : cluster; after : time }.

(** the thread after the turns given: still in the loop, out of it because
    the flag was cleared, or ended by an exception of [sc.update()] *)
Inductive thread : Type :=
| Looping (last_run : time) (sc : SchemaCache)
| Stopped (sc : SchemaCache)
| Died (e : exn)
| Outside.

Fixpoint update_cache_from (interval : Z) (turns : list turn)
    (last_run : time) (sc : SchemaCache) : thread :=
  match turns with
  | [] => Looping last_run sc
  | t :: rest =>
      if is_set t then
        if later (now t) (plus last_run interval) then
          match update set_order (cluster_now t) sc with
          | Ok sc' => update_cache_from interval rest (after t) sc'
          | Raise e => Died e
          | _ => Outside
          end
        else update_cache_from interval rest last_run sc
      else Stopped sc
  end.

Definition update_cache (interval : Z) (turns : list turn) (sc : SchemaCache)
  : thread :=
  update_cache_from interval turns zero sc.

End Refresher.

Arguments is_set {time} t.
Arguments now {time} t.
Arguments cluster_now {time} t.
Arguments after {time} t.
Arguments Looping {time} last_run sc.
Arguments Stopped {time} sc.
Arguments Died {time} e.
Arguments Outside {time}.

(** ** Sample requests, kubeconfigs and turns *)

Definition get_all : App.Request :=
  {| App.url := "http://localhost:8000/all.json"; App.method := "GET";
     App.client := Some ("127.0.0.1", 40000%Z) |}.

Definition get_all_no_peer : App.Request :=
  {| App.url := "http://localhost:8000/all.json"; App.method := "GET";
     App.client := None |}.

Definition named (field n : string) (x : json) : json :=
  JObj [("name", JStr n); (field, x)].

(** a kubeconfig with two users of one name *)
Definition dev_kube : json :=
  JObj [("current-context", JStr "dev");
        ("contexts",
         JArr [named "context" "dev"
                 (JObj [("cluster", JStr "kind"); ("user", JStr "admin")])]);
        ("clusters",
         JArr [named "cluster" "kind"
                 (JObj [("server", JStr "https://127.0.0.1:6443");
                        ("certificate-authority", JStr "/ca.crt")])]);
        ("users",
         JArr [named "user" "admin" (JObj [("token", JStr "old")]);
               named "user" "admin"
                 (JObj [("client-certificate", JStr "/admin.crt")])])].

(** [dev_kube] with a current context that no entry has *)
Definition stale_kube : json :=
  JObj [("current-context", JStr "prod");
        ("contexts",
         JArr [named "context" "dev"
                 (JObj [("cluster", JStr "kind"); ("user", JStr "admin")])]);
        ("clusters", JArr []);
        ("users", JArr [])].

Definition plain_session : Session :=
  {| verify := JBool true; cert := None;
     headers := [("Accept", JStr "*/*")] |}.

(** a turn with the clock at [t] before and after, in seconds *)
Definition turn_at (t : Z) (c : cluster) : turn Z :=
  {| is_set := true; now := t; cluster_now := c; after := t |}.

(** a certificate authority, a client certificate without its key and an
    empty token *)
Definition cert_only_auth : Auth :=
  {| ca_cert := JStr "/ca.crt"; client_cert := JStr "/admin.crt";
     client_key := JNull; token := JStr "" |}.

(** * Facts about the model *)

(** ** [str.replace] *)

Section Replace.

Variables old new : string.

Lemma drop_nil (k : nat) : drop k EmptyString = EmptyString.
Proof. destruct k; reflexivity. Qed.

Lemma replace_go_skip (s : string) :
  forall k, replace_go old new k s = replace_go old new 0 (drop k s).
Proof.
  induction s as [|c t IH]; intros k.
  - rewrite drop_nil. reflexivity.
  - destruct k as [|k]; [reflexivity|].
    simpl. apply IH.
Qed.

Lemma str_replace_nil : str_replace old new EmptyString = EmptyString.
Proof. reflexivity. Qed.

Lemma str_replace_hit (c : ascii) (t : string) :
  starts_with old (String c t) = true ->
  str_replace old new (String c t)
  = new ++ str_replace old new (drop (String.length old - 1) t).
Proof.
  intros H. unfold str_replace. simpl replace_go.
  simpl in H. rewrite H. now rewrite replace_go_skip.
Qed.

Lemma str_replace_miss (c : ascii) (t : string) :
  starts_with old (String c t) = false ->
  str_replace old new (String c t) = String c (str_replace old new t).
Proof.
  intros H. unfold str_replace. simpl replace_go.
  simpl in H. now rewrite H.
Qed.

End Replace.

Lemma starts_with_cons (a b : ascii) (p s : string) :
  starts_with (String a p) (String b s) = Ascii.eqb a b && starts_with p s.
Proof. reflexivity. Qed.

Lemma drop_length (k : nat) (s : string) : String.length (drop k s) <= String.length s.
Proof.
  revert s; induction k as [|k IH]; intros [|c t]; simpl; try lia.
  specialize (IH t). lia.
Qed.

Lemma occurs_false_head (p : string) (c : ascii) (t : string) :
  occurs p (String c t) = false ->
  starts_with p (String c t) = false /\ occurs p t = false.
Proof.
  intros H. change (starts_with p (String c t) || occurs p t = false) in H.
  now apply orb_false_iff in H.
Qed.

Lemma rewrite_ref_string_hit (c : ascii) (t : string) :
  starts_with components_prefix (String c t) = true ->
  rewrite_ref_string (String c t)
  = definitions_prefix ++ rewrite_ref_string (drop 20 t).
Proof. intros H. unfold rewrite_ref_string. now rewrite str_replace_hit. Qed.

Lemma rewrite_ref_string_miss (c : ascii) (t : string) :
  starts_with components_prefix (String c t) = false ->
  rewrite_ref_string (String c t) = String c (rewrite_ref_string t).
Proof. intros H. unfold rewrite_ref_string. now rewrite str_replace_miss. Qed.

(** What the scan copies is free of '#' only where the input was. *)
Lemma starts_with_rewritten (q : string) :
  no_hash q = true ->
  forall t, starts_with q (rewrite_ref_string t) = true -> starts_with q t = true.
Proof.
  induction q as [|a q IH]; intros Hq t H; [reflexivity|].
  simpl in Hq. apply andb_true_iff in Hq as [Ha Hq].
  destruct t as [|c t]; [discriminate H|].
  destruct (starts_with components_prefix (String c t)) eqn:E.
  - rewrite (rewrite_ref_string_hit _ _ E) in H.
    change (definitions_prefix ++ rewrite_ref_string (drop 20 t))
      with (String "#" ("/definitions/" ++ rewrite_ref_string (drop 20 t))) in H.
    rewrite starts_with_cons in H.
    apply andb_true_iff in H as [H _]. rewrite H in Ha. discriminate Ha.
  - rewrite (rewrite_ref_string_miss _ _ E) in H.
    rewrite starts_with_cons in H |- *.
    apply andb_true_iff in H as [H1 H2]. rewrite H1. simpl. now apply IH.
Qed.

Lemma occurs_after_definitions (x : string) :
  occurs components_prefix (definitions_prefix ++ x) = occurs components_prefix x.
Proof. reflexivity. Qed.

Lemma rewrite_ref_string_clean_len (n : nat) :
  forall s, String.length s <= n ->
    occurs components_prefix (rewrite_ref_string s) = false.
Proof.
  induction n as [|n IH]; intros s Hn.
  - destruct s; [reflexivity | simpl in Hn; lia].
  - destruct s as [|c t]; [reflexivity|].
    simpl in Hn.
    destruct (starts_with components_prefix (String c t)) eqn:E.
    + rewrite (rewrite_ref_string_hit _ _ E), occurs_after_definitions.
      apply IH. pose proof (drop_length 20 t). lia.
    + rewrite (rewrite_ref_string_miss _ _ E).
      change (starts_with components_prefix (String c (rewrite_ref_string t))
              || occurs components_prefix (rewrite_ref_string t) = false).
      rewrite (IH t) by lia. rewrite orb_false_r.
      destruct (starts_with components_prefix (String c (rewrite_ref_string t))) eqn:F;
        [|reflexivity].
      exfalso. unfold components_prefix in E, F.
      rewrite starts_with_cons in E, F.
      apply andb_true_iff in F as [F1 F2].
      apply starts_with_rewritten in F2; [|reflexivity].
      rewrite F1, F2 in E. discriminate E.
Qed.

Lemma rewrite_ref_string_clean (s : string) :
  occurs components_prefix (rewrite_ref_string s) = false.
Proof. apply (rewrite_ref_string_clean_len (String.length s)). lia. Qed.

Lemma rewrite_ref_string_fixed (s : string) :
  occurs components_prefix s = false -> rewrite_ref_string s = s.
Proof.
  induction s as [|c t IH]; intros H; [reflexivity|].
  apply occurs_false_head in H as [H1 H2].
  rewrite (rewrite_ref_string_miss _ _ H1). now rewrite IH.
Qed.

(** ** The result monad *)

Lemma bind_Ok {A B : Type} (m : result A) (k : A -> result B) (b : B) :
  (x <- m ;; k x) = Ok b -> exists a, m = Ok a /\ k a = Ok b.
Proof. destruct m; simpl; try discriminate. intros H. now exists a. Qed.

Lemma mapM_ext_in {A B : Type} (f g : A -> result B) (l : list A) :
  (forall x, In x l -> f x = g x) -> mapM f l = mapM g l.
Proof.
  induction l as [|x t IH]; intros H; [reflexivity|].
  simpl. rewrite (H x) by now left.
  rewrite IH; [reflexivity|]. intros y Hy. apply H. now right.
Qed.

Lemma mapM_Forall2 {A B : Type} (f : A -> result B) (l : list A) :
  forall l', mapM f l = Ok l' -> Forall2 (fun a b => f a = Ok b) l l'.
Proof.
  induction l as [|x t IH]; intros l' H; simpl in H.
  - injection H as <-. constructor.
  - bind_inv H. bind_inv H. injection H as <-.
    constructor; [assumption | now apply IH].
Qed.

Lemma mapM_fixed {A : Type} (f : A -> result A) (l : list A) :
  (forall x, In x l -> f x = Ok x) -> mapM f l = Ok l.
Proof.
  induction l as [|x t IH]; intros H; [reflexivity|].
  simpl. rewrite (H x) by now left. simpl.
  rewrite IH; [reflexivity|]. intros y Hy. apply H. now right.
Qed.

Lemma mapM_defined {A B : Type} (f : A -> result B) (l : list A) :
  (forall x, In x l -> f x <> OutOfFuel /\ f x <> Unmodelled) ->
  mapM f l <> OutOfFuel /\ mapM f l <> Unmodelled.
Proof.
  induction l as [|x t IH]; intros H; [split; discriminate|].
  simpl. destruct (H x (or_introl eq_refl)) as [H1 H2].
  destruct (f x); simpl; try (split; congruence).
  destruct IH as [I1 I2]; [intros y Hy; apply H; now right|].
  destruct (mapM f t); simpl; split; congruence.
Qed.

(** ** Dicts *)

Lemma dict_get_set_same (k : string) (x : json) (d : dict) :
  dict_get k (dict_set k x d) = Some x.
Proof.
  induction d as [|[k' y] t IH]; simpl.
  - now rewrite String.eqb_refl.
  - destruct (String.eqb k k') eqn:E; simpl; rewrite E; [reflexivity | exact IH].
Qed.

Lemma dict_get_set_other (k k' : string) (x : json) (d : dict) :
  k <> k' -> dict_get k' (dict_set k x d) = dict_get k' d.
Proof.
  intros N. induction d as [|[k0 y] t IH]; simpl.
  - apply String.eqb_neq in N. rewrite String.eqb_sym in N. now rewrite N.
  - destruct (String.eqb k k0) eqn:E; simpl.
    + apply String.eqb_eq in E. subst k0.
      assert (F : String.eqb k' k = false)
        by (apply String.eqb_neq; congruence).
      now rewrite F.
    + now rewrite IH.
Qed.

Lemma dict_get_pop_same (k : string) (d : dict) :
  dict_get k (dict_pop k d) = None.
Proof.
  induction d as [|[k' y] t IH]; simpl; [reflexivity|].
  destruct (String.eqb k k') eqn:E; simpl; [exact IH | now rewrite E].
Qed.

Lemma dict_get_pop_other (k k' : string) (d : dict) :
  k <> k' -> dict_get k' (dict_pop k d) = dict_get k' d.
Proof.
  intros N. induction d as [|[k0 y] t IH]; simpl; [reflexivity|].
  destruct (String.eqb k k0) eqn:E; simpl.
  - apply String.eqb_eq in E. subst k0.
    assert (F : String.eqb k' k = false) by (apply String.eqb_neq; congruence).
    now rewrite F.
  - now rewrite IH.
Qed.

Lemma dict_pop_absent (k : string) (d : dict) :
  dict_get k d = None -> dict_pop k d = d.
Proof.
  induction d as [|[k' y] t IH]; simpl; [reflexivity|].
  destruct (String.eqb k k'); [discriminate|].
  intros H. now rewrite IH.
Qed.


Lemma dict_get_In (k : string) (x : json) (d : dict) :
  dict_get k d = Some x -> In (k, x) d.
Proof.
  induction d as [|[k' y] t IH]; simpl; [discriminate|].
  destruct (String.eqb k k') eqn:E.
  - apply String.eqb_eq in E. subst k'. intros H. injection H as ->. now left.
  - intros H. right. now apply IH.
Qed.

Lemma dict_pop_In (k : string) (kv : string * json) (d : dict) :
  In kv (dict_pop k d) -> In kv d.
Proof.
  induction d as [|[k' y] t IH]; simpl; [tauto|].
  destruct (String.eqb k k'); simpl; tauto.
Qed.

Lemma dict_set_In (k : string) (x : json) (kv : string * json) (d : dict) :
  In kv (dict_set k x d) -> kv = (k, x) \/ In kv d.
Proof.
  induction d as [|[k' y] t IH]; simpl.
  - intros [H | []]. now left.
  - destruct (String.eqb k k') eqn:E; simpl.
    + apply String.eqb_eq in E. subst k'. intros [H | H]; auto.
    + intros [H | H]; auto. destruct (IH H); auto.
Qed.

Lemma dict_mem_get (k : string) (d : dict) :
  dict_mem k d = true <-> exists x, dict_get k d = Some x.
Proof.
  unfold dict_mem. destruct (dict_get k d).
  - split; [eauto | reflexivity].
  - split; [discriminate | intros [x H]; discriminate].
Qed.

Lemma dict_keys_set_present (k : string) (x : json) (d : dict) :
  dict_mem k d = true -> dict_keys (dict_set k x d) = dict_keys d.
Proof.
  unfold dict_mem, dict_keys.
  induction d as [|[k' y] t IH]; simpl; [discriminate|].
  destruct (String.eqb k k'); simpl; [reflexivity|].
  intros H. now rewrite IH.
Qed.

(** ** Depth *)

Lemma depth_JObj (d : dict) : depth (JObj d) = S (vdepth d).
Proof. reflexivity. Qed.

Lemma vdepth_le (d : dict) (n : nat) :
  vdepth d <= n <-> forall kv, In kv d -> depth (snd kv) <= n.
Proof.
  unfold vdepth. rewrite list_max_le, Forall_map, Forall_forall. reflexivity.
Qed.

Lemma depth_JArr_le (l : list json) (n : nat) :
  depth (JArr l) <= n <-> forall y, In y l -> depth y <= n.
Proof.
  change (depth (JArr l)) with (list_max (map depth l)).
  rewrite list_max_le, Forall_map, Forall_forall. reflexivity.
Qed.

Lemma depth_value (k : string) (x : json) (d : dict) :
  In (k, x) d -> depth x <= vdepth d.
Proof.
  intros H. pose proof (proj1 (vdepth_le d (vdepth d)) (le_n _) (k, x) H) as L.
  exact L.
Qed.

Lemma depth_hashable (x : json) : hashable x = true -> depth x = 0.
Proof. destruct x; simpl; congruence. Qed.

Lemma vdepth_pop (k : string) (d : dict) : vdepth (dict_pop k d) <= vdepth d.
Proof.
  apply vdepth_le. intros [k' y] H. apply dict_pop_In in H.
  now apply depth_value in H.
Qed.

Lemma vdepth_set (k : string) (x : json) (d : dict) (n : nat) :
  depth x <= n -> vdepth d <= n -> vdepth (dict_set k x d) <= n.
Proof.
  intros Hx Hd. apply vdepth_le. intros kv H.
  apply dict_set_In in H as [-> | H]; [exact Hx|].
  exact (proj1 (vdepth_le d n) Hd kv H).
Qed.

(** ** The steps of [_cleanup_schema] on one node *)

Lemma hoist_allOf_cases (v v1 : dict) :
  hoist_allOf v = Ok v1 ->
  v1 = v
  \/ exists r,
       dict_get "allOf" v = Some (JArr [JObj [("$ref", r)]])
       /\ v1 = dict_set "$ref" r (dict_pop "allOf" v).
Proof.
  unfold hoist_allOf.
  destruct (dict_get "allOf" v) as [[| | | |[|e [|e' l]]|]|];
    try (intros H; injection H as <-; now left).
  intros H. bind_inv H.
  destruct (a =? 1)%nat eqn:N; [|injection H as <-; now left].
  bind_inv H. injection H as <-. right.
  apply Nat.eqb_eq in N. subst a.
  destruct e as [| | | | |ed]; try discriminate E0.
  simpl in E. injection E as E.
  destruct ed as [|[k r] [|kv ed]]; try discriminate E.
  unfold py_getitem, dict_get in E0.
  destruct (String.eqb "$ref" k) eqn:K; [|discriminate E0].
  apply String.eqb_eq in K. subst k. injection E0 as ->.
  now exists a0.
Qed.

Lemma hoist_allOf_defined (v : dict) :
  hoist_allOf v <> OutOfFuel /\ hoist_allOf v <> Unmodelled.
Proof.
  unfold hoist_allOf.
  destruct (dict_get "allOf" v) as [[| | | |[|e [|e' l]]|]|];
    try (split; discriminate).
  destruct (py_len e) eqn:L; simpl; try (split; discriminate).
  - destruct (a =? 1)%nat; [|split; discriminate].
    destruct (py_getitem e "$ref") eqn:G; simpl; try (split; discriminate);
      destruct e as [| | | | |ed]; simpl in G; try discriminate G;
      destruct (dict_get "$ref" ed); discriminate G.
  - destruct e; discriminate L.
  - destruct e; discriminate L.
Qed.

Lemma vdepth_hoist (v v1 : dict) :
  hoist_allOf v = Ok v1 -> vdepth v1 <= vdepth v.
Proof.
  intros H. apply hoist_allOf_cases in H as [-> | [r [G ->]]]; [lia|].
  apply dict_get_In, depth_value in G.
  apply vdepth_set; [|apply vdepth_pop].
  change (depth (JArr [JObj [("$ref", r)]]))
    with (Nat.max (S (Nat.max (depth r) 0)) 0) in G.
  lia.
Qed.

Lemma vdepth_rewrite_ref (v : dict) : vdepth (rewrite_ref v) <= vdepth v.
Proof.
  unfold rewrite_ref.
  destruct (dict_get "$ref" v) as [[| | |s| |]|]; try lia.
  apply vdepth_set; [simpl; lia | lia].
Qed.

Section CleanupFacts.

Variable set_order : list json -> list json.

Lemma dedup_enum_cases (v v' : dict) :
  dedup_enum set_order v = Ok v' ->
  v' = v
  \/ exists l,
       dict_get "enum" v = Some (JArr l)
       /\ forallb hashable l = true
       /\ v' = dict_set "enum" (JArr (set_order l)) v.
Proof.
  unfold dedup_enum.
  destruct (dict_get "enum" v) as [[| | | |l|]|];
    try (intros H; injection H as <-; now left).
  destruct (forallb hashable l) eqn:F; [|discriminate].
  intros H. injection H as <-. right. now exists l.
Qed.

Lemma dedup_enum_defined (v : dict) :
  dedup_enum set_order v <> OutOfFuel /\ dedup_enum set_order v <> Unmodelled.
Proof.
  unfold dedup_enum.
  destruct (dict_get "enum" v) as [[| | | |l|]|]; try (split; discriminate).
  destruct (forallb hashable l); split; discriminate.
Qed.

Lemma cleanup_node_defined (v : dict) :
  cleanup_node set_order v <> OutOfFuel /\ cleanup_node set_order v <> Unmodelled.
Proof.
  unfold cleanup_node.
  destruct (hoist_allOf_defined (dict_pop "default" v)) as [H1 H2].
  destruct (hoist_allOf (dict_pop "default" v)); simpl;
    try (split; congruence).
  apply dedup_enum_defined.
Qed.

Lemma cleanup_value_JArr (rec : dict -> result dict) (l : list json) :
  cleanup_value rec (JArr l) = (l' <- mapM (cleanup_element rec) l ;; Ok (JArr l')).
Proof. reflexivity. Qed.

Lemma cleanup_element_ext (rec1 rec2 : dict -> result dict) (n : nat) (y : json) :
  (forall d, depth (JObj d) <= n -> rec1 d = rec2 d) ->
  depth y <= n -> cleanup_element rec1 y = cleanup_element rec2 y.
Proof.
  intros H L. destruct y; try reflexivity. simpl. now rewrite (H d L).
Qed.

Lemma cleanup_value_ext (rec1 rec2 : dict -> result dict) (n : nat) (x : json) :
  (forall d, depth (JObj d) <= n -> rec1 d = rec2 d) ->
  depth x <= n -> cleanup_value rec1 x = cleanup_value rec2 x.
Proof.
  intros H L. destruct x; try reflexivity.
  - rewrite !cleanup_value_JArr.
    rewrite (mapM_ext_in (cleanup_element rec1) (cleanup_element rec2));
      [reflexivity|].
    intros y Hy. apply (cleanup_element_ext _ _ n); [exact H|].
    exact (proj1 (depth_JArr_le l n) L y Hy).
  - simpl. now rewrite (H d L).
Qed.

Lemma cleanup_items_ext (rec1 rec2 : dict -> result dict) (n : nat) (v : dict) :
  (forall d, depth (JObj d) <= n -> rec1 d = rec2 d) ->
  vdepth v <= n -> cleanup_items rec1 v = cleanup_items rec2 v.
Proof.
  intros H L. unfold cleanup_items. apply mapM_ext_in.
  intros kv Hkv.
  rewrite (cleanup_value_ext rec1 rec2 n); [reflexivity | exact H |].
  exact (proj1 (vdepth_le v n) L kv Hkv).
Qed.

Lemma cleanup_fuel_S (n : nat) (v : dict) :
  cleanup_fuel set_order (S n) v
  = (v' <- cleanup_node set_order v ;;
     cleanup_items (cleanup_fuel set_order n) v').
Proof. reflexivity. Qed.

Hypothesis set_order_incl :
  forall l, forallb hashable l = true -> incl (set_order l) l.

Lemma vdepth_dedup (v v' : dict) :
  dedup_enum set_order v = Ok v' -> vdepth v' <= vdepth v.
Proof.
  intros H. apply dedup_enum_cases in H as [-> | [l [G [F ->]]]]; [lia|].
  apply vdepth_set; [|lia].
  apply depth_JArr_le. intros y Hy.
  apply (set_order_incl l F) in Hy.
  rewrite forallb_forall in F. rewrite (depth_hashable y (F y Hy)). lia.
Qed.

Lemma vdepth_cleanup_node (v v' : dict) :
  cleanup_node set_order v = Ok v' -> vdepth v' <= vdepth v.
Proof.
  unfold cleanup_node. intros H. bind_inv H.
  apply vdepth_dedup in H. apply vdepth_hoist in E.
  pose proof (vdepth_rewrite_ref a). pose proof (vdepth_pop "default" v). lia.
Qed.

(** Any bound from the depth of the node on gives the same outcome. *)
Lemma cleanup_fuel_enough (n : nat) :
  forall v, depth (JObj v) <= n ->
    cleanup_fuel set_order n v = cleanup_schema set_order v.
Proof.
  induction n as [n IH] using lt_wf_ind. intros v L.
  rewrite depth_JObj in L. destruct n as [|n]; [lia|].
  unfold cleanup_schema. rewrite depth_JObj, !cleanup_fuel_S.
  destruct (cleanup_node set_order v) as [v'| | |] eqn:E; try reflexivity.
  simpl. apply vdepth_cleanup_node in E.
  apply (cleanup_items_ext _ _ (vdepth v)); [|exact E].
  intros d Ld. destruct (Nat.eq_dec (vdepth v) n) as [->|N]; [reflexivity|].
  rewrite (IH n) by lia. rewrite (IH (vdepth v)) by lia. reflexivity.
Qed.

(** The recursion equation of [_cleanup_schema]. *)
Lemma cleanup_schema_eq (v : dict) :
  cleanup_schema set_order v
  = (v' <- cleanup_node set_order v ;;
     cleanup_items (cleanup_schema set_order) v').
Proof.
  unfold cleanup_schema at 1. rewrite depth_JObj, cleanup_fuel_S.
  destruct (cleanup_node set_order v) as [v'| | |] eqn:E; try reflexivity.
  simpl. apply vdepth_cleanup_node in E.
  apply (cleanup_items_ext _ _ (vdepth v)); [|exact E].
  intros d Ld. now apply cleanup_fuel_enough.
Qed.

Lemma cleanup_fuel_defined (n : nat) :
  forall v, depth (JObj v) <= n ->
    cleanup_fuel set_order n v <> OutOfFuel
    /\ cleanup_fuel set_order n v <> Unmodelled.
Proof.
  induction n as [|n IH]; intros v L; rewrite depth_JObj in L; [lia|].
  rewrite cleanup_fuel_S.
  destruct (cleanup_node_defined v) as [N1 N2].
  destruct (cleanup_node set_order v) as [v'| | |] eqn:E; simpl;
    try (split; congruence).
  apply vdepth_cleanup_node in E.
  apply mapM_defined. intros [k x] Hx.
  assert (Lx : depth x <= n)
    by (apply depth_value in Hx; lia).
  cbn [snd fst].
  assert (D : cleanup_value (cleanup_fuel set_order n) x <> OutOfFuel
              /\ cleanup_value (cleanup_fuel set_order n) x <> Unmodelled).
  { destruct x as [| | | |l|d]; try (split; discriminate).
    - rewrite cleanup_value_JArr.
      assert (M : mapM (cleanup_element (cleanup_fuel set_order n)) l <> OutOfFuel
                  /\ mapM (cleanup_element (cleanup_fuel set_order n)) l <> Unmodelled).
      { apply mapM_defined. intros y Hy.
        pose proof (proj1 (depth_JArr_le l n) Lx y Hy) as Ly.
        destruct y as [| | | | |d]; try (split; discriminate).
        simpl. destruct (IH d Ly) as [I1 I2].
        destruct (cleanup_fuel set_order n d); simpl; split; congruence. }
      destruct M as [M1 M2].
      destruct (mapM (cleanup_element (cleanup_fuel set_order n)) l);
        simpl; split; congruence.
    - simpl. destruct (IH d Lx) as [I1 I2].
      destruct (cleanup_fuel set_order n d); simpl; split; congruence. }
  destruct D as [D1 D2].
  destruct (cleanup_value (cleanup_fuel set_order n) x); simpl; split; congruence.
Qed.

(** [_cleanup_schema] returns or raises. *)
Lemma cleanup_schema_total (v : dict) :
  (exists v', cleanup_schema set_order v = Ok v')
  \/ (exists e, cleanup_schema set_order v = Raise e).
Proof.
  destruct (cleanup_fuel_defined (depth (JObj v)) v (le_n _)) as [H1 H2].
  fold (cleanup_schema set_order v) in H1, H2.
  destruct (cleanup_schema set_order v); eauto; congruence.
Qed.

End CleanupFacts.

Local Open Scope list_scope.

(** ** Python equality on hashable values, and the two set orders *)

Lemma NoDup_map_inj {A B : Type} (f : A -> B) (l : list A) :
  (forall a b, f a = f b -> a = b) -> NoDup l -> NoDup (map f l).
Proof.
  intros Hf. induction 1 as [|x t Hx Ht IH]; simpl; constructor; [|exact IH].
  intros Hin. apply in_map_iff in Hin as [y [E Hy]].
  apply Hf in E. now subst y.
Qed.

Lemma py_eq_refl (x : json) : hashable x = true -> py_eq x x = true.
Proof.
  destruct x; simpl; try discriminate; intros _.
  - reflexivity.
  - apply Bool.eqb_reflx.
  - apply Z.eqb_refl.
  - apply String.eqb_refl.
Qed.

Lemma py_eq_sym (x y : json) :
  hashable x = true -> hashable y = true -> py_eq x y = py_eq y x.
Proof.
  destruct x, y; simpl; try discriminate; intros _ _; try reflexivity.
  - destruct b, b0; reflexivity.
  - apply Z.eqb_sym.
  - apply Z.eqb_sym.
  - apply Z.eqb_sym.
  - apply String.eqb_sym.
Qed.


Lemma py_eq_JStr (s : string) (y : json) :
  py_eq (JStr s) y = true -> y = JStr s.
Proof.
  destruct y; simpl; try discriminate.
  intros H. apply String.eqb_eq in H. now subst.
Qed.

Lemma list_contains_app (x : json) (l r : list json) :
  list_contains x (l ++ r) = list_contains x l || list_contains x r.
Proof. apply existsb_app. Qed.

Lemma list_contains_false (x : json) (l : list json) :
  list_contains x l = false <-> forall y, In y l -> py_eq x y = false.
Proof.
  unfold list_contains. induction l as [|a t IH]; simpl.
  - split; [intros _ y [] | reflexivity].
  - rewrite orb_false_iff, IH. split.
    + intros [H1 H2] y [<- | Hy]; auto.
    + intros H. split; [apply H; now left | intros y Hy; apply H; now right].
Qed.

Lemma list_contains_In (x : json) (l : list json) :
  hashable x = true -> In x l -> list_contains x l = true.
Proof.
  intros Hx H. unfold list_contains. apply existsb_exists.
  exists x. split; [exact H | now apply py_eq_refl].
Qed.

Lemma py_distinct_snoc (l : list json) (x : json) :
  py_distinct l = true ->
  (forall y, In y l -> py_eq y x = false) ->
  py_distinct (l ++ [x]) = true.
Proof.
  induction l as [|a t IH]; simpl; intros D H; [reflexivity|].
  apply andb_true_iff in D as [D1 D2].
  rewrite list_contains_app. simpl. rewrite (H a) by now left.
  apply negb_true_iff in D1. rewrite D1. simpl.
  apply IH; [exact D2 | intros y Hy; apply H; now right].
Qed.

Lemma first_seen_extends (l : list json) :
  forall seen, exists r, first_seen l seen = seen ++ r.
Proof.
  induction l as [|x t IH]; intros seen; simpl.
  - exists []. now rewrite app_nil_r.
  - destruct (list_contains x seen).
    + apply IH.
    + destruct (IH (seen ++ [x])) as [r ->]. exists ([x] ++ r).
      now rewrite <- app_assoc.
Qed.

Lemma first_seen_incl (l : list json) :
  forall seen y, In y (first_seen l seen) -> In y seen \/ In y l.
Proof.
  induction l as [|x t IH]; intros seen y H; simpl in H; [now left|].
  destruct (list_contains x seen).
  - destruct (IH _ _ H); [now left | right; now right].
  - destruct (IH _ _ H) as [H1 | H1]; [|right; now right].
    apply in_app_or in H1 as [H1 | [<- | []]]; [now left | right; now left].
Qed.

Lemma first_seen_keeps (l : list json) :
  forall seen x, list_contains x seen = true ->
    list_contains x (first_seen l seen) = true.
Proof.
  intros seen x H. destruct (first_seen_extends l seen) as [r ->].
  rewrite list_contains_app, H. reflexivity.
Qed.

Lemma first_seen_covers (l : list json) :
  forallb hashable l = true ->
  forall seen x, In x l -> list_contains x (first_seen l seen) = true.
Proof.
  induction l as [|a t IH]; intros Hl seen x H; [destruct H|].
  simpl in Hl. apply andb_true_iff in Hl as [Ha Ht]. simpl.
  destruct H as [<- | H]; [|now apply IH].
  apply first_seen_keeps.
  destruct (list_contains a seen) eqn:E; [exact E|].
  rewrite list_contains_app. simpl. rewrite (py_eq_refl a Ha).
  now rewrite orb_true_r.
Qed.

Lemma first_seen_distinct (l : list json) :
  forallb hashable l = true ->
  forall seen, forallb hashable seen = true -> py_distinct seen = true ->
    py_distinct (first_seen l seen) = true.
Proof.
  induction l as [|a t IH]; intros Hl seen Hs D; [exact D|].
  simpl in Hl. apply andb_true_iff in Hl as [Ha Ht]. simpl.
  destruct (list_contains a seen) eqn:E; [now apply IH|].
  apply IH; [exact Ht | |].
  - rewrite forallb_app, Hs. simpl. now rewrite Ha.
  - apply py_distinct_snoc; [exact D|].
    intros y Hy. rewrite py_eq_sym; [| |exact Ha].
    + exact (proj1 (list_contains_false a seen) E y Hy).
    + rewrite forallb_forall in Hs. now apply Hs.
Qed.

Lemma insertion_order_ok : set_order_ok insertion_order.
Proof.
  intros l Hl. unfold insertion_order. repeat split.
  - intros y Hy. apply first_seen_incl in Hy as [[] | Hy]. exact Hy.
  - intros x Hx. now apply first_seen_covers.
  - now apply first_seen_distinct.
Qed.

Lemma list_contains_rev (x : json) (l : list json) :
  list_contains x (rev l) = list_contains x l.
Proof.
  unfold list_contains. induction l as [|a t IH]; [reflexivity|].
  simpl. rewrite existsb_app, IH. simpl. rewrite orb_false_r. apply orb_comm.
Qed.

Lemma py_distinct_rev (l : list json) :
  forallb hashable l = true -> py_distinct l = true -> py_distinct (rev l) = true.
Proof.
  induction l as [|a t IH]; intros Hl D; [reflexivity|].
  simpl in Hl, D. apply andb_true_iff in Hl as [Ha Ht].
  apply andb_true_iff in D as [D1 D2]. apply negb_true_iff in D1.
  simpl. apply py_distinct_snoc; [now apply IH|].
  intros y Hy. apply in_rev in Hy.
  rewrite py_eq_sym; [| |exact Ha].
  - exact (proj1 (list_contains_false a t) D1 y Hy).
  - rewrite forallb_forall in Ht. now apply Ht.
Qed.

Lemma first_seen_hashable (l : list json) :
  forallb hashable l = true -> forallb hashable (first_seen l []) = true.
Proof.
  intros Hl. apply forallb_forall. intros y Hy.
  apply first_seen_incl in Hy as [[] | Hy].
  rewrite forallb_forall in Hl. now apply Hl.
Qed.

Lemma reverse_order_ok : set_order_ok reverse_order.
Proof.
  intros l Hl. unfold reverse_order. repeat split.
  - intros y Hy. apply in_rev in Hy.
    apply first_seen_incl in Hy as [[] | Hy]. exact Hy.
  - intros x Hx. rewrite list_contains_rev. now apply first_seen_covers.
  - apply py_distinct_rev; [now apply first_seen_hashable|].
    now apply first_seen_distinct.
Qed.




(** On a list of distinct strings every admissible order is a permutation. *)
Lemma set_order_strings (set_order : list json -> list json) (l : list string) :
  set_order_ok set_order -> NoDup l ->
  Permutation (set_order (map JStr l)) (map JStr l).
Proof.
  intros Hok Hnd.
  assert (Hh : forallb hashable (map JStr l) = true).
  { apply forallb_forall. intros y Hy. apply in_map_iff in Hy as [s [<- _]].
    reflexivity. }
  destruct (Hok _ Hh) as [Hincl [Hcov Hdis]].
  apply NoDup_Permutation.
  - revert Hincl Hdis. generalize (set_order (map JStr l)) as r.
    induction r as [|a t IH]; intros Hincl Hdis; constructor.
    + simpl in Hdis. apply andb_true_iff in Hdis as [D1 _].
      apply negb_true_iff in D1. intros Hin.
      assert (Ha : hashable a = true).
      { rewrite forallb_forall in Hh. apply Hh, Hincl. now left. }
      pose proof (proj1 (list_contains_false a t) D1 a Hin) as F.
      rewrite (py_eq_refl a Ha) in F. discriminate F.
    + simpl in Hdis. apply andb_true_iff in Hdis as [_ D2].
      apply IH; [|exact D2]. intros y Hy. apply Hincl. now right.
  - apply NoDup_map_inj; [|exact Hnd].
    intros a b E. now injection E.
  - intros x. split; [apply Hincl|].
    intros Hx. specialize (Hcov x Hx).
    apply existsb_exists in Hcov as [y [Hy E]].
    apply in_map_iff in Hx as [s [<- _]].
    apply py_eq_JStr in E. now subst y.
Qed.

(** ** Keys of a node across the steps of [_cleanup_schema] *)

Lemma Forall2_in_r {A B : Type} (R : A -> B -> Prop) (l : list A) (l' : list B) :
  Forall2 R l l' -> forall b, In b l' -> exists a, In a l /\ R a b.
Proof.
  induction 1 as [|a b t t' Hab Ht IH]; intros y Hy; [destruct Hy|].
  destruct Hy as [<- | Hy].
  - exists a. split; [now left | exact Hab].
  - destruct (IH y Hy) as [x [Hx Rx]]. exists x. split; [now right | exact Rx].
Qed.

Lemma cleanup_value_scalar (rec : dict -> result dict) (x : json) :
  hashable x = true -> cleanup_value rec x = Ok x.
Proof. destruct x; simpl; congruence. Qed.

Lemma cleanup_value_JStr (rec : dict -> result dict) (x : json) (s : string) :
  cleanup_value rec x = Ok (JStr s) -> x = JStr s.
Proof.
  destruct x; simpl; intros H; try congruence.
  - bind_inv H. discriminate H.
  - bind_inv H. discriminate H.
Qed.

Lemma cleanup_value_to_JObj (rec : dict -> result dict) (x : json) (d' : dict) :
  cleanup_value rec x = Ok (JObj d') -> exists d, x = JObj d /\ rec d = Ok d'.
Proof.
  destruct x; simpl; intros H; try discriminate H.
  - bind_inv H. discriminate H.
  - bind_inv H. injection H as <-. now exists d.
Qed.

Lemma cleanup_value_to_JArr (rec : dict -> result dict) (x : json) (l' : list json) :
  cleanup_value rec x = Ok (JArr l') ->
  exists l, x = JArr l /\ mapM (cleanup_element rec) l = Ok l'.
Proof.
  destruct x; simpl; intros H; try discriminate H.
  - bind_inv H. injection H as <-. now exists l.
  - bind_inv H. discriminate H.
Qed.

Lemma cleanup_element_to_JObj (rec : dict -> result dict) (y : json) (d' : dict) :
  cleanup_element rec y = Ok (JObj d') -> exists d, y = JObj d /\ rec d = Ok d'.
Proof.
  destruct y; simpl; intros H; try discriminate H.
  bind_inv H. injection H as <-. now exists d.
Qed.

Lemma mapM_cleanup_element_hashable (rec : dict -> result dict) (l : list json) :
  forallb hashable l = true -> mapM (cleanup_element rec) l = Ok l.
Proof.
  intros H. apply mapM_fixed. intros y Hy.
  rewrite forallb_forall in H. specialize (H y Hy).
  destruct y; simpl in *; congruence.
Qed.

(** the loop of line 72 keeps the keys and their order *)
Lemma cleanup_items_get (rec : dict -> result dict) (v : dict) :
  forall v', cleanup_items rec v = Ok v' ->
    forall k,
      match dict_get k v with
      | Some x => exists x', cleanup_value rec x = Ok x' /\ dict_get k v' = Some x'
      | None => dict_get k v' = None
      end.
Proof.
  unfold cleanup_items.
  induction v as [|[k0 x0] t IH]; intros v' H k; simpl in H.
  - injection H as <-. reflexivity.
  - bind_inv H. bind_inv E. injection E as <-. bind_inv H. injection H as <-.
    simpl. destruct (String.eqb k k0); [now exists a0|]. now apply IH.
Qed.

Lemma cleanup_items_entries (rec : dict -> result dict) (v v' : dict) :
  cleanup_items rec v = Ok v' ->
  Forall2 (fun kv kv' => fst kv' = fst kv /\ cleanup_value rec (snd kv) = Ok (snd kv'))
    v v'.
Proof.
  unfold cleanup_items. intros H. apply mapM_Forall2 in H.
  induction H as [|kv kv' t t' Hkv Ht IH]; constructor; [|exact IH].
  bind_inv Hkv. injection Hkv as <-. now split.
Qed.

Lemma cleanup_items_keys (rec : dict -> result dict) (v v' : dict) :
  cleanup_items rec v = Ok v' -> dict_keys v' = dict_keys v.
Proof.
  intros H. apply cleanup_items_entries in H. unfold dict_keys.
  induction H as [|kv kv' t t' [Hk _] Ht IH]; [reflexivity|].
  simpl. now rewrite Hk, IH.
Qed.

Lemma hoist_allOf_get (v v1 : dict) (k : string) :
  hoist_allOf v = Ok v1 -> k <> "allOf" -> k <> "$ref" ->
  dict_get k v1 = dict_get k v.
Proof.
  intros H N1 N2. apply hoist_allOf_cases in H as [-> | [r [_ ->]]]; [reflexivity|].
  rewrite dict_get_set_other by congruence.
  now rewrite dict_get_pop_other by congruence.
Qed.

Lemma rewrite_ref_get (v : dict) (k : string) :
  k <> "$ref" -> dict_get k (rewrite_ref v) = dict_get k v.
Proof.
  intros N. unfold rewrite_ref.
  destruct (dict_get "$ref" v) as [[| | |s| |]|]; try reflexivity.
  now rewrite dict_get_set_other by congruence.
Qed.

Section NodeFacts.

Variable set_order : list json -> list json.

Lemma dedup_enum_get (v v' : dict) (k : string) :
  dedup_enum set_order v = Ok v' -> k <> "enum" -> dict_get k v' = dict_get k v.
Proof.
  intros H N. apply dedup_enum_cases in H as [-> | [l [_ [_ ->]]]]; [reflexivity|].
  now rewrite dict_get_set_other by congruence.
Qed.

Lemma cleanup_node_get (v v' : dict) (k : string) :
  cleanup_node set_order v = Ok v' -> plain_key k -> dict_get k v' = dict_get k v.
Proof.
  unfold cleanup_node. intros H [N1 [N2 [N3 N4]]]. bind_inv H.
  rewrite (dedup_enum_get _ _ k H N4), (rewrite_ref_get _ k N3).
  rewrite (hoist_allOf_get _ _ k E N2 N3).
  now rewrite dict_get_pop_other by congruence.
Qed.

Lemma cleanup_node_ref (v v' : dict) (s : string) :
  cleanup_node set_order v = Ok v' ->
  dict_get "$ref" v' = Some (JStr s) -> occurs components_prefix s = false.
Proof.
  unfold cleanup_node. intros H G. bind_inv H.
  rewrite (dedup_enum_get _ _ "$ref" H) in G by discriminate.
  unfold rewrite_ref in G.
  destruct (dict_get "$ref" a) as [[| | |s0| |]|] eqn:R;
    try (rewrite R in G; discriminate G).
  rewrite dict_get_set_same in G. injection G as <-.
  apply rewrite_ref_string_clean.
Qed.

Lemma cleanup_node_no_default (v v' : dict) :
  cleanup_node set_order v = Ok v' -> dict_get "default" v' = None.
Proof.
  unfold cleanup_node. intros H. bind_inv H.
  rewrite (dedup_enum_get _ _ "default" H) by discriminate.
  rewrite rewrite_ref_get by discriminate.
  rewrite (hoist_allOf_get _ _ "default" E) by discriminate.
  apply dict_get_pop_same.
Qed.

Lemma hoist_allOf_long (v : dict) (l : list json) :
  dict_get "allOf" v = Some (JArr l) -> 2 <= List.length l ->
  hoist_allOf v = Ok v.
Proof.
  intros G L. unfold hoist_allOf. rewrite G.
  destruct l as [|a [|b t]]; simpl in L; try lia. reflexivity.
Qed.

Lemma cleanup_node_allOf_long (v v' : dict) (l : list json) :
  dict_get "allOf" v = Some (JArr l) -> 2 <= List.length l ->
  cleanup_node set_order v = Ok v' -> dict_get "allOf" v' = Some (JArr l).
Proof.
  intros G L. unfold cleanup_node.
  assert (G0 : dict_get "allOf" (dict_pop "default" v) = Some (JArr l))
    by (rewrite dict_get_pop_other by discriminate; exact G).
  rewrite (hoist_allOf_long _ l G0 L). simpl. intros H.
  rewrite (dedup_enum_get _ _ "allOf" H) by discriminate.
  now rewrite rewrite_ref_get by discriminate.
Qed.

(** ** [$ref] strings after [_cleanup_schema] *)

Lemma cleanup_fuel_refs (n : nat) :
  forall v v', cleanup_fuel set_order n v = Ok v' ->
    forall r, In r (visited_refs (JObj v')) -> occurs components_prefix r = false.
Proof.
  induction n as [|n IH]; intros v v' H r Hr; [discriminate H|].
  rewrite cleanup_fuel_S in H. bind_inv H.
  change (In r (own_ref v'
                ++ flat_map
                     (fun kv =>
                        match snd kv with
                        | JObj _ => visited_refs (snd kv)
                        | JArr l =>
                            flat_map
                              (fun y => match y with
                                        | JObj _ => visited_refs y
                                        | _ => []
                                        end) l
                        | _ => []
                        end) v')) in Hr.
  apply in_app_or in Hr as [Hr | Hr].
  - unfold own_ref in Hr.
    destruct (dict_get "$ref" v') as [[| | |s| |]|] eqn:G; try destruct Hr.
    + subst r.
      pose proof (cleanup_items_get _ _ _ H "$ref") as I.
      destruct (dict_get "$ref" a) as [x|] eqn:Ga; [|congruence].
      destruct I as [x' [Cx Gx]]. rewrite G in Gx. injection Gx as <-.
      apply cleanup_value_JStr in Cx. subst x.
      exact (cleanup_node_ref _ _ _ E Ga).
    + destruct H0.
  - apply in_flat_map in Hr as [[k' x'] [Hin Hr]]. cbn [snd] in Hr.
    apply cleanup_items_entries in H.
    destruct (Forall2_in_r _ _ _ H _ Hin) as [[k x] [_ [_ Cx]]]. cbn [snd] in Cx.
    destruct x' as [| | | |l'|d']; try destruct Hr.
    + apply cleanup_value_to_JArr in Cx as [l [-> M]].
      apply in_flat_map in Hr as [y' [Hy' Hr]].
      apply mapM_Forall2 in M.
      destruct (Forall2_in_r _ _ _ M _ Hy') as [y [_ Cy]].
      destruct y' as [| | | | |d']; try destruct Hr.
      apply cleanup_element_to_JObj in Cy as [d [-> Cd]].
      exact (IH _ _ Cd r Hr).
    + apply cleanup_value_to_JObj in Cx as [d [-> Cd]].
      exact (IH _ _ Cd r Hr).
Qed.

Lemma normalise_entries (s s' : dict) :
  normalise set_order s = Ok s' ->
  Forall2 (fun kv kv' =>
             fst kv' = fst kv /\ normalise_value set_order (snd kv) = Ok (snd kv'))
    s s'.
Proof.
  unfold normalise. intros H. apply mapM_Forall2 in H.
  induction H as [|kv kv' t t' Hkv Ht IH]; constructor; [|exact IH].
  bind_inv Hkv. injection Hkv as <-. now split.
Qed.

Lemma normalise_keys (s s' : dict) :
  normalise set_order s = Ok s' -> dict_keys s' = dict_keys s.
Proof.
  intros H. apply normalise_entries in H. unfold dict_keys.
  induction H as [|kv kv' t t' [Hk _] Ht IH]; [reflexivity|].
  simpl. now rewrite Hk, IH.
Qed.

End NodeFacts.

(** * The claims *)

(** ** The cache object *)

Lemma store_rebind (sc : SchemaCache) (d : dict) : store (rebind sc d) = d.
Proof.
  unfold store, deref, rebind. simpl.
  rewrite app_nth2 by lia. now rewrite Nat.sub_diag.
Qed.

Lemma deref_rebind (sc : SchemaCache) (d : dict) (r : nat) :
  r < List.length (objects sc) -> deref (rebind sc d) r = deref sc r.
Proof. intros L. unfold deref, rebind. simpl. now apply app_nth1. Qed.

Lemma nth_write_at (objs : list dict) :
  forall r d, r < List.length objs -> nth r (write_at r d objs) [] = d.
Proof.
  induction objs as [|o t IH]; intros r d L; simpl in L; [lia|].
  destruct r as [|r]; [reflexivity|]. simpl. apply IH. lia.
Qed.

Lemma store_fill (sc : SchemaCache) (d d' : dict) :
  store (fill (rebind sc d) d') = d'.
Proof.
  unfold store, fill, mutate, deref, rebind. simpl.
  apply nth_write_at. rewrite length_app. simpl. lia.
Qed.

(** C1, as the code has it: a cycle whose catalog fetch is not answered
    with 200 ends without an exception and leaves the store empty, whatever
    it held; the dict objects handed out before the cycle are not touched. *)
Theorem update_catalog_failure_empties_store
    (set_order : list json -> list json) (c : cluster) (sc : SchemaCache) :
  status_code (catalog c) <> 200%Z ->
  exists sc',
    update set_order c sc = Ok sc'
    /\ store sc' = []
    /\ paths sc' = []
    /\ forall r, r < List.length (objects sc) -> deref sc' r = deref sc r.
Proof.
  intros H. exists (rebind sc []). unfold update.
  apply Z.eqb_neq in H. rewrite H.
  split; [reflexivity|]. unfold paths. rewrite store_rebind.
  repeat split. intros r L. now apply deref_rebind.
Qed.

Lemma update_catalog_failure_empties_store_witness :
  status_code (catalog down_cluster) <> 200%Z
  /\ exists sc',
       update insertion_order down_cluster pod_cache = Ok sc'
       /\ store sc' = []
       /\ paths sc' = []
       /\ forall r, r < List.length (objects pod_cache) ->
                    deref sc' r = deref pod_cache r.
Proof.
  assert (H : status_code (catalog down_cluster) <> 200%Z) by (simpl; lia).
  split; [exact H|].
  exact (update_catalog_failure_empties_store insertion_order down_cluster
           pod_cache H).
Defined.

(** C1 fails on the code: the catalog answers 503, the store held [Pod]
    before the cycle and holds nothing after it. *)
Lemma update_catalog_failure_loses_store :
  status_code (catalog down_cluster) <> 200%Z
  /\ paths pod_cache = ["Pod"]
  /\ exists sc',
       update insertion_order down_cluster pod_cache = Ok sc'
       /\ paths sc' = []
       /\ store sc' <> store pod_cache.
Proof.
  split; [simpl; lia|]. split; [reflexivity|].
  eexists. split; [reflexivity|]. split; [reflexivity|]. discriminate.
Qed.

(** C5, as the code has it: [schemas] hands out the store's own dict, so
    what a caller does to it is what [schemas] and [paths] show afterwards. *)
Theorem schemas_returns_the_store (sc : SchemaCache) (f : dict -> dict) :
  _schemas sc < List.length (objects sc) ->
  let sc' := mutate (schemas sc) f sc in
  schemas sc' = schemas sc
  /\ deref sc' (schemas sc') = f (store sc)
  /\ paths sc' = dict_keys (f (store sc)).
Proof.
  intros L sc'. unfold sc', paths, store, schemas, mutate, deref. simpl.
  rewrite nth_write_at by exact L. auto.
Qed.

Lemma schemas_returns_the_store_witness :
  _schemas pod_cache < List.length (objects pod_cache)
  /\ schemas (mutate (schemas pod_cache) inject pod_cache) = schemas pod_cache
  /\ deref (mutate (schemas pod_cache) inject pod_cache) (schemas pod_cache)
     = inject (store pod_cache)
  /\ paths (mutate (schemas pod_cache) inject pod_cache)
     = dict_keys (inject (store pod_cache)).
Proof.
  assert (H : _schemas pod_cache < List.length (objects pod_cache))
    by (simpl; lia).
  split; [exact H|].
  exact (schemas_returns_the_store pod_cache inject H).
Defined.

(** C5 fails on the code: a caller adds a key to the dict [schemas]
    returned, and [paths] lists it. *)
Lemma schemas_mutation_reaches_store :
  paths pod_cache = ["Pod"]
  /\ paths (mutate (schemas pod_cache) inject pod_cache) = ["Pod"; "Injected"]
  /\ store (mutate (schemas pod_cache) inject pod_cache) <> store pod_cache.
Proof. repeat split. discriminate. Qed.

(** ** Fetching the paths *)

Lemma dict_merge_keeps (e : dict) :
  forall d k, dict_mem k d = true -> dict_mem k (dict_merge d e) = true.
Proof.
  unfold dict_merge.
  induction e as [|[k0 x0] t IH]; intros d k H; [exact H|].
  simpl. apply IH. unfold dict_mem in *.
  destruct (String.eqb k0 k) eqn:E.
  - apply String.eqb_eq in E. subst k0. now rewrite dict_get_set_same.
  - apply String.eqb_neq in E. now rewrite dict_get_set_other.
Qed.

Lemma dict_merge_adds (e : dict) :
  forall d k, dict_mem k e = true -> dict_mem k (dict_merge d e) = true.
Proof.
  unfold dict_merge.
  induction e as [|[k0 x0] t IH]; intros d k H; [discriminate H|].
  simpl. unfold dict_mem in H. simpl in H.
  destruct (String.eqb k k0) eqn:E.
  - apply String.eqb_eq in E. subst k0.
    apply (dict_merge_keeps t). unfold dict_mem. now rewrite dict_get_set_same.
  - apply IH. exact H.
Qed.

(** A path that is not answered with 200 is passed over. *)
Lemma fetch_paths_skips (c : cluster) (paths : list string) :
  forall acc,
    fetch_paths c paths acc
    = fetch_paths c
        (filter (fun p => (status_code (document c p) =? 200)%Z) paths) acc.
Proof.
  induction paths as [|p t IH]; intros acc; [reflexivity|].
  simpl. destruct (status_code (document c p) =? 200)%Z eqn:E.
  - simpl. rewrite E.
    destruct (path_schemas (document c p)); try reflexivity. simpl.
    destruct (py_update acc a); try reflexivity. simpl. apply IH.
  - apply IH.
Qed.

Lemma fetch_paths_collects (c : cluster) (paths : list string) :
  (forall p, In p paths -> status_code (document c p) = 200%Z ->
     exists e, path_schemas (document c p) = Ok (JObj e)) ->
  forall acc, exists merged,
    fetch_paths c paths acc = Ok merged
    /\ (forall name, dict_mem name acc = true -> dict_mem name merged = true)
    /\ (forall p e name,
          In p paths -> status_code (document c p) = 200%Z ->
          path_schemas (document c p) = Ok (JObj e) ->
          dict_mem name e = true -> dict_mem name merged = true).
Proof.
  induction paths as [|p t IH]; intros W acc.
  - exists acc. split; [reflexivity|]. split; [auto|]. intros p e name [].
  - assert (Wt : forall q, In q t -> status_code (document c q) = 200%Z ->
                   exists e, path_schemas (document c q) = Ok (JObj e))
      by (intros q Hq; apply W; now right).
    simpl. destruct (status_code (document c p) =? 200)%Z eqn:E.
    + apply Z.eqb_eq in E. destruct (W p (or_introl eq_refl) E) as [e0 S0].
      rewrite S0. simpl.
      destruct (IH Wt (dict_merge acc e0)) as [merged [F [K C]]].
      exists merged. split; [exact F|]. split.
      * intros name H. apply K. now apply dict_merge_keeps.
      * intros q e name [<- | Hq] Sq Pq Hn.
        -- rewrite S0 in Pq. injection Pq as <-.
           apply K. now apply dict_merge_adds.
        -- exact (C q e name Hq Sq Pq Hn).
    + destruct (IH Wt acc) as [merged [F [K C]]].
      exists merged. split; [exact F|]. split; [exact K|].
      intros q e name [<- | Hq] Sq Pq Hn.
      * apply Z.eqb_neq in E. contradiction.
      * exact (C q e name Hq Sq Pq Hn).
Qed.

(** With one path of three answered 404 the cycle installs the definitions
    of the other two. *)
Lemma update_one_missing :
  exists sc',
    update insertion_order one_missing_cluster pod_cache = Ok sc'
    /\ paths sc' = ["Pod"; "Job"].
Proof. eexists. split; reflexivity. Qed.

(** C8 fails on the code: of three paths the second is answered with 200
    and a body that is not JSON; the exception of [resp.json()] ends the
    cycle. *)
Lemma update_garbled_path_aborts :
  status_code (document one_garbled_cluster "apis/apps/v1") = 200%Z
  /\ body (document one_garbled_cluster "apis/apps/v1") = None
  /\ (exists e, path_schemas (document one_garbled_cluster "api/v1") = Ok (JObj e))
  /\ (exists e, path_schemas (document one_garbled_cluster "apis/batch/v1") = Ok (JObj e))
  /\ update insertion_order one_garbled_cluster pod_cache = Raise JSONDecodeError.
Proof.
  split; [reflexivity|]. split; [reflexivity|].
  split; [eexists; reflexivity|]. split; [eexists; reflexivity|]. reflexivity.
Qed.

(** ** [_fix_kind] *)

Lemma fix_kind_without_triples (v : dict) :
  dict_mem gvk_key v = false -> fix_kind v = Ok v.
Proof. intros H. unfold fix_kind. now rewrite H. Qed.

Lemma fix_property_absent (field : string)
    (collect : list json -> list json -> result (list json)) (v pd : dict) :
  dict_get "properties" v = Some (JObj pd) -> dict_mem field pd = false ->
  fix_property field collect v = Ok v.
Proof.
  intros G H. unfold fix_property. simpl. rewrite G. simpl. now rewrite H.
Qed.

(** With the triples and a [properties] dict that has neither entry,
    [_fix_kind] changes nothing. *)
Lemma fix_kind_without_entries (v pd : dict) :
  dict_get "properties" v = Some (JObj pd) ->
  dict_mem "kind" pd = false -> dict_mem "apiVersion" pd = false ->
  fix_kind v = Ok v.
Proof.
  intros G K A. unfold fix_kind. destruct (dict_mem gvk_key v); [|reflexivity].
  rewrite (fix_property_absent _ _ v pd G K). simpl.
  exact (fix_property_absent _ _ v pd G A).
Qed.

(** C2, the code at the failing input: two triples of group [apps] and
    version [v1] leave [apps/v1] twice in the [apiVersion] enum, while the
    [kind] enum of the same node is free of repeats. *)
Theorem fix_kind_repeats_api_version :
  exists v',
    fix_kind same_version_node = Ok v'
    /\ path_get ["properties"; "apiVersion"; "enum"] (JObj v')
       = Some (JArr [JStr "apps/v1"; JStr "apps/v1"])
    /\ path_get ["properties"; "kind"; "enum"] (JObj v')
       = Some (JArr [JStr "Deployment"; JStr "Scale"]).
Proof. eexists. repeat split. Qed.

(** The test of line 91 looks for the group among the strings already in
    the enum: a triple whose group is spelled as an earlier entry adds
    nothing. *)
Lemma fix_kind_drops_api_version :
  exists v',
    fix_kind group_named_v1_node = Ok v'
    /\ path_get ["properties"; "apiVersion"; "enum"] (JObj v')
       = Some (JArr [JStr "v1"]).
Proof. eexists. repeat split. Qed.

(** C3, the code at the failing input: the triples are there, [properties]
    is not, and line 82 raises. *)
Theorem fix_kind_without_properties_raises :
  dict_mem gvk_key no_properties_node = true
  /\ dict_get "properties" no_properties_node = None
  /\ fix_kind no_properties_node = Raise (KeyError "properties").
Proof. repeat split. Qed.

(** ** [_cleanup_schema] *)

(** C10: a one-element [allOf] whose element is a dict with one key other
    than [$ref] makes [_cleanup_schema] raise [KeyError]. *)
Theorem cleanup_schema_allOf_KeyError
    (set_order : list json -> list json) (v : dict) (k : string) (x : json) :
  dict_get "allOf" v = Some (JArr [JObj [(k, x)]]) ->
  k <> "$ref" ->
  cleanup_schema set_order v = Raise (KeyError "$ref").
Proof.
  intros G N. unfold cleanup_schema. rewrite depth_JObj, cleanup_fuel_S.
  unfold cleanup_node, hoist_allOf.
  rewrite dict_get_pop_other by discriminate. rewrite G.
  cbn [py_len List.length Nat.eqb bind py_getitem dict_get].
  assert (E : String.eqb "$ref" k = false)
    by (apply String.eqb_neq; congruence).
  rewrite E. reflexivity.
Qed.

Lemma cleanup_schema_allOf_KeyError_witness :
  dict_get "allOf" allOf_type_node
  = Some (JArr [JObj [("type", JStr "object")]])
  /\ cleanup_schema insertion_order allOf_type_node = Raise (KeyError "$ref").
Proof.
  split; [reflexivity|].
  apply (cleanup_schema_allOf_KeyError insertion_order allOf_type_node
           "type" (JStr "object")).
  - reflexivity.
  - discriminate.
Defined.

Lemma fix_property_cases (field : string)
    (collect : list json -> list json -> result (list json)) (v v1 : dict) :
  fix_property field collect v = Ok v1 ->
  exists props,
    dict_get "properties" v = Some props
    /\ ((py_in field props = Ok false /\ v1 = v)
        \/ exists pd nd g items enum,
             props = JObj pd
             /\ dict_get field pd = Some (JObj nd)
             /\ dict_get gvk_key v = Some g
             /\ py_iter g = Ok items
             /\ collect items [] = Ok enum
             /\ v1 = dict_set "properties"
                       (JObj (dict_set field
                                (JObj (dict_set "enum" (JArr enum) nd)) pd)) v).
Proof.
  unfold fix_property. intros H. bind_inv H.
  unfold py_getitem in E.
  destruct (dict_get "properties" v) as [props|] eqn:G; [|discriminate E].
  injection E as <-. exists props. split; [reflexivity|].
  bind_inv H. destruct a.
  - right. bind_inv H.
    destruct props as [| | | | |pd]; try discriminate H.
    destruct a as [| | | | |nd]; try discriminate H.
    bind_inv H. bind_inv H. bind_inv H. injection H as <-.
    unfold py_getitem in E0, E1.
    destruct (dict_get field pd) as [y|] eqn:Gf; [|discriminate E0].
    injection E0 as ->.
    destruct (dict_get gvk_key v) as [g|] eqn:Gg; [|discriminate E1].
    injection E1 as ->.
    now exists pd, nd, a, a0, a1.
  - left. injection H as <-. now split.
Qed.

Lemma fix_property_get (field : string)
    (collect : list json -> list json -> result (list json)) (v v1 : dict)
    (k : string) :
  fix_property field collect v = Ok v1 -> k <> "properties" ->
  dict_get k v1 = dict_get k v.
Proof.
  intros H N. apply fix_property_cases in H as [props [_ [[_ ->] | H]]];
    [reflexivity|].
  destruct H as [pd [nd [g [items [enum [_ [_ [_ [_ [_ ->]]]]]]]]]].
  now rewrite dict_get_set_other by congruence.
Qed.

(** [_fix_kind] writes below [properties] only. *)
Lemma fix_kind_get (v v1 : dict) (k : string) :
  fix_kind v = Ok v1 -> k <> "properties" -> dict_get k v1 = dict_get k v.
Proof.
  unfold fix_kind. destruct (dict_mem gvk_key v).
  - intros H N. bind_inv H.
    rewrite (fix_property_get _ _ _ _ k H N).
    exact (fix_property_get _ _ _ _ k E N).
  - intros H _. now injection H as <-.
Qed.

Section Claims.

Variable set_order : list json -> list json.
Hypothesis set_order_spec : set_order_ok set_order.

Lemma set_order_ok_incl :
  forall l, forallb hashable l = true -> incl (set_order l) l.
Proof. intros l H. exact (proj1 (set_order_spec l H)). Qed.

Lemma set_order_hashable (l : list json) :
  forallb hashable l = true -> forallb hashable (set_order l) = true.
Proof.
  intros H. apply forallb_forall. intros y Hy.
  apply (set_order_ok_incl l H) in Hy.
  rewrite forallb_forall in H. now apply H.
Qed.

Lemma cleanup_schema_step (v : dict) :
  cleanup_schema set_order v
  = (v' <- cleanup_node set_order v ;;
     cleanup_items (cleanup_schema set_order) v').
Proof. exact (cleanup_schema_eq set_order set_order_ok_incl v). Qed.

Lemma cleanup_schema_enum_only (l : list json) :
  forallb hashable l = true ->
  cleanup_schema set_order [("enum", JArr l)] = Ok [("enum", JArr (set_order l))].
Proof.
  intros H. rewrite cleanup_schema_step.
  unfold cleanup_node.
  change (hoist_allOf (dict_pop "default" [("enum", JArr l)]))
    with (Ok (A := dict) [("enum", JArr l)]).
  cbn [bind].
  change (rewrite_ref [("enum", JArr l)]) with [("enum", JArr l)].
  unfold dedup_enum.
  change (dict_get "enum" [("enum", JArr l)]) with (Some (JArr l)).
  cbv beta iota. rewrite H.
  change (dict_set "enum" (JArr (set_order l)) [("enum", JArr l)])
    with [("enum", JArr (set_order l))].
  cbn [bind cleanup_items mapM snd fst cleanup_value].
  rewrite mapM_cleanup_element_hashable by now apply set_order_hashable.
  reflexivity.
Qed.

Lemma cleanup_schema_gvk (group version kind : string) :
  cleanup_schema set_order
    [("group", JStr group); ("version", JStr version); ("kind", JStr kind)]
  = Ok [("group", JStr group); ("version", JStr version); ("kind", JStr kind)].
Proof. reflexivity. Qed.

Local Arguments cleanup_schema : simpl never.

Lemma normalise_deployment_pod :
  normalise_value set_order (JObj deployment_pod_node)
  = Ok (JObj
          [(gvk_key, JArr [gvk "apps" "v1" "Deployment"; gvk "" "v1" "Pod"]);
           ("properties",
            JObj [("kind",
                   JObj [("enum",
                          JArr (set_order [JStr "Deployment"; JStr "Pod"]))]);
                  ("apiVersion",
                   JObj [("enum",
                          JArr (set_order [JStr "apps/v1"; JStr "v1"]))])]);
           ("additionalProperties", JBool false)]).
Proof.
  unfold normalise_value.
  replace (fix_kind deployment_pod_node) with
    (Ok [(gvk_key, JArr [gvk "apps" "v1" "Deployment"; gvk "" "v1" "Pod"]);
         ("properties",
          JObj [("kind", JObj [("enum", JArr [JStr "Deployment"; JStr "Pod"])]);
                ("apiVersion",
                 JObj [("enum", JArr [JStr "apps/v1"; JStr "v1"])])])])
    by reflexivity.
  cbn [bind]. rewrite cleanup_schema_step. cbn.
  rewrite !cleanup_schema_gvk. cbn.
  rewrite cleanup_schema_step. cbn.
  rewrite !cleanup_schema_enum_only by reflexivity.
  reflexivity.
Qed.

(** C6, as the code has it: on the node of the spec's example [_fix_kind]
    builds the two enums in the order of the triples, and the
    de-duplication of [_cleanup_schema], which runs after it on the same
    two nodes, leaves the same values in an order that is not fixed. *)
Theorem fix_kind_then_cleanup_enums :
  (exists v1,
     fix_kind deployment_pod_node = Ok v1
     /\ path_get ["properties"; "kind"; "enum"] (JObj v1)
        = Some (JArr [JStr "Deployment"; JStr "Pod"])
     /\ path_get ["properties"; "apiVersion"; "enum"] (JObj v1)
        = Some (JArr [JStr "apps/v1"; JStr "v1"]))
  /\ exists v' kinds versions,
       normalise_value set_order (JObj deployment_pod_node) = Ok v'
       /\ path_get ["properties"; "kind"; "enum"] v' = Some (JArr kinds)
       /\ Permutation kinds [JStr "Deployment"; JStr "Pod"]
       /\ path_get ["properties"; "apiVersion"; "enum"] v' = Some (JArr versions)
       /\ Permutation versions [JStr "apps/v1"; JStr "v1"].
Proof.
  split; [eexists; repeat split|].
  eexists. exists (set_order [JStr "Deployment"; JStr "Pod"]).
  exists (set_order [JStr "apps/v1"; JStr "v1"]).
  split; [exact normalise_deployment_pod|].
  split; [reflexivity|]. split.
  - apply (set_order_strings set_order ["Deployment"; "Pod"] set_order_spec).
    repeat constructor; simpl; intuition discriminate.
  - split; [reflexivity|].
    apply (set_order_strings set_order ["apps/v1"; "v1"] set_order_spec).
    repeat constructor; simpl; intuition discriminate.
Qed.

End Claims.

Lemma fix_kind_then_cleanup_enums_witness :
  set_order_ok insertion_order
  /\ (exists v1,
       fix_kind deployment_pod_node = Ok v1
       /\ path_get ["properties"; "kind"; "enum"] (JObj v1)
          = Some (JArr [JStr "Deployment"; JStr "Pod"])
       /\ path_get ["properties"; "apiVersion"; "enum"] (JObj v1)
          = Some (JArr [JStr "apps/v1"; JStr "v1"]))
  /\ exists v' kinds versions,
       normalise_value insertion_order (JObj deployment_pod_node) = Ok v'
       /\ path_get ["properties"; "kind"; "enum"] v' = Some (JArr kinds)
       /\ Permutation kinds [JStr "Deployment"; JStr "Pod"]
       /\ path_get ["properties"; "apiVersion"; "enum"] v' = Some (JArr versions)
       /\ Permutation versions [JStr "apps/v1"; JStr "v1"].
Proof.
  split; [exact insertion_order_ok|].
  exact (fix_kind_then_cleanup_enums insertion_order insertion_order_ok).
Defined.

(** C6 fails on the code: with a set that iterates in the reverse of the
    insertion order, which [list(set(...))] allows, the pass leaves
    [["Pod", "Deployment"]] and [["v1", "apps/v1"]]. *)
Lemma normalise_reorders_enums :
  set_order_ok reverse_order
  /\ exists v',
       normalise_value reverse_order (JObj deployment_pod_node) = Ok v'
       /\ path_get ["properties"; "kind"; "enum"] v'
          = Some (JArr [JStr "Pod"; JStr "Deployment"])
       /\ path_get ["properties"; "apiVersion"; "enum"] v'
          = Some (JArr [JStr "v1"; JStr "apps/v1"])
       /\ path_get ["properties"; "kind"; "enum"] v'
          <> Some (JArr [JStr "Deployment"; JStr "Pod"]).
Proof.
  split; [exact reverse_order_ok|].
  eexists. split; [reflexivity|]. repeat split. discriminate.
Qed.

Section Hoisting.

Variable set_order : list json -> list json.
Hypothesis set_order_spec : set_order_ok set_order.

Lemma cleanup_schema_allOf_long (v v' : dict) (l : list json) :
  dict_get "allOf" v = Some (JArr l) -> 2 <= List.length l ->
  cleanup_schema set_order v = Ok v' ->
  exists l',
    dict_get "allOf" v' = Some (JArr l')
    /\ mapM (cleanup_element (cleanup_schema set_order)) l = Ok l'.
Proof.
  intros G L H. rewrite (cleanup_schema_step set_order set_order_spec) in H.
  bind_inv H.
  pose proof (cleanup_node_allOf_long set_order v a l G L E) as Ga.
  pose proof (cleanup_items_get _ _ _ H "allOf") as I. rewrite Ga in I.
  destruct I as [x' [Cx Gx]]. simpl in Cx. bind_inv Cx. injection Cx as <-.
  now exists a0.
Qed.

(** C7: the node of the spec's example comes out as a [$ref] into
    [#/definitions/] without [allOf], from [_cleanup_schema] and from the
    whole pass over a definition; on a node whose [allOf] has two or more
    elements the hoisting step does nothing, and the node comes out with
    its [allOf], the elements being the cleaned elements. *)
Theorem allOf_hoisting (v : dict) (l : list json) :
  dict_get "allOf" v = Some (JArr l) ->
  2 <= List.length l ->
  cleanup_schema set_order allOf_ref_node
  = Ok [("$ref", JStr "#/definitions/Foo")]
  /\ normalise_value set_order (JObj allOf_ref_node)
     = Ok (JObj [("additionalProperties", JBool false);
                 ("$ref", JStr "#/definitions/Foo")])
  /\ hoist_allOf (dict_pop "default" v) = Ok (dict_pop "default" v)
  /\ (forall v',
        cleanup_schema set_order v = Ok v' ->
        exists l',
          dict_get "allOf" v' = Some (JArr l')
          /\ mapM (cleanup_element (cleanup_schema set_order)) l = Ok l')
  /\ (forall x',
        normalise_value set_order (JObj v) = Ok x' ->
        exists v' l',
          x' = JObj v'
          /\ dict_get "allOf" v' = Some (JArr l')
          /\ mapM (cleanup_element (cleanup_schema set_order)) l = Ok l').
Proof.
  intros G L. split; [reflexivity|]. split; [reflexivity|]. split.
  - apply (hoist_allOf_long _ l); [|exact L].
    rewrite dict_get_pop_other by discriminate. exact G.
  - split.
    + intros v' H. exact (cleanup_schema_allOf_long v v' l G L H).
    + intros x' H. unfold normalise_value in H. bind_inv H. bind_inv H.
      injection H as <-.
      assert (Ga : dict_get "allOf" a = Some (JArr l))
        by (rewrite (fix_kind_get _ _ "allOf" E) by discriminate; exact G).
      assert (Gw : dict_get "allOf" (close_schema a) = Some (JArr l)).
      { unfold close_schema. destruct (dict_mem preserve_key a); [exact Ga|].
        rewrite dict_get_set_other by discriminate. exact Ga. }
      destruct (cleanup_schema_allOf_long _ _ l Gw L E0) as [l' [G' M]].
      now exists a0, l'.
Qed.

End Hoisting.

Lemma allOf_hoisting_witness :
  set_order_ok insertion_order
  /\ dict_get "allOf" allOf_two_node
     = Some (JArr [ref_node "#/components/schemas/Foo";
                   ref_node "#/components/schemas/Bar"])
  /\ cleanup_schema insertion_order allOf_ref_node
     = Ok [("$ref", JStr "#/definitions/Foo")]
  /\ normalise_value insertion_order (JObj allOf_ref_node)
     = Ok (JObj [("additionalProperties", JBool false);
                 ("$ref", JStr "#/definitions/Foo")])
  /\ hoist_allOf (dict_pop "default" allOf_two_node)
     = Ok (dict_pop "default" allOf_two_node)
  /\ (forall v',
        cleanup_schema insertion_order allOf_two_node = Ok v' ->
        exists l',
          dict_get "allOf" v' = Some (JArr l')
          /\ mapM (cleanup_element (cleanup_schema insertion_order))
               [ref_node "#/components/schemas/Foo";
                ref_node "#/components/schemas/Bar"] = Ok l')
  /\ (forall x',
        normalise_value insertion_order (JObj allOf_two_node) = Ok x' ->
        exists v' l',
          x' = JObj v'
          /\ dict_get "allOf" v' = Some (JArr l')
          /\ mapM (cleanup_element (cleanup_schema insertion_order))
               [ref_node "#/components/schemas/Foo";
                ref_node "#/components/schemas/Bar"] = Ok l').
Proof.
  split; [exact insertion_order_ok|]. split; [reflexivity|].
  apply (allOf_hoisting insertion_order insertion_order_ok allOf_two_node
           [ref_node "#/components/schemas/Foo";
            ref_node "#/components/schemas/Bar"]).
  - reflexivity.
  - simpl. lia.
Defined.

(** The two-element node of the witness, evaluated. *)
Lemma cleanup_schema_allOf_two :
  cleanup_schema insertion_order allOf_two_node
  = Ok [("allOf", JArr [ref_node "#/definitions/Foo"; ref_node "#/definitions/Bar"])].
Proof. reflexivity. Qed.

(** C4 fails on the code: a [$ref] in a dict inside a list inside a list is
    not visited and keeps [#/components/schemas/]. *)
Lemma normalise_misses_nested_array_ref :
  exists s',
    normalise insertion_order [("Deep", JObj nested_array_node)] = Ok s'
    /\ In "#/components/schemas/Foo" (set_refs s')
    /\ occurs components_prefix "#/components/schemas/Foo" = true.
Proof. eexists. split; [reflexivity|]. split; [simpl; auto | reflexivity]. Qed.

(** ** Writing a key and the steps of [_cleanup_schema] *)



Lemma dict_set_twice (k : string) (x y : json) (d : dict) :
  dict_set k y (dict_set k x d) = dict_set k y d.
Proof.
  induction d as [|[k0 z] t IH]; simpl.
  - now rewrite String.eqb_refl.
  - destruct (String.eqb k k0) eqn:E; simpl; rewrite E; [reflexivity|].
    now rewrite IH.
Qed.








Section WritingKeys.

Variable set_order : list json -> list json.





Lemma cleanup_node_enum (v a : dict) (l : list json) :
  cleanup_node set_order v = Ok a ->
  dict_get "enum" a = Some (JArr l) ->
  exists l0,
    dict_get "enum" v = Some (JArr l0)
    /\ forallb hashable l0 = true
    /\ l = set_order l0.
Proof.
  unfold cleanup_node. intros H G. bind_inv H.
  assert (Ge : dict_get "enum" (rewrite_ref a0) = dict_get "enum" v).
  { rewrite rewrite_ref_get by discriminate.
    rewrite (hoist_allOf_get _ _ "enum" E) by discriminate.
    now rewrite dict_get_pop_other by discriminate. }
  unfold dedup_enum in H. rewrite Ge in H.
  destruct (dict_get "enum" v) as [[| | | |l0|]|] eqn:Gv;
    try (injection H as <-; rewrite Ge in G; discriminate G).
  destruct (forallb hashable l0) eqn:F; [|discriminate H].
  injection H as <-. rewrite dict_get_set_same in G. injection G as <-.
  now exists l0.
Qed.

End WritingKeys.


Lemma visited_all_JObj (p : dict -> bool) (d : dict) :
  visited_all p (JObj d) = true ->
  p d = true
  /\ (forall k d', In (k, JObj d') d -> visited_all p (JObj d') = true)
  /\ (forall k l d', In (k, JArr l) d -> In (JObj d') l ->
        visited_all p (JObj d') = true).
Proof.
  intros H.
  change (p d
          && forallb
               (fun kv =>
                  match snd kv with
                  | JObj _ => visited_all p (snd kv)
                  | JArr l =>
                      forallb
                        (fun y => match y with
                                  | JObj _ => visited_all p y
                                  | _ => true
                                  end) l
                  | _ => true
                  end) d = true) in H.
  apply andb_true_iff in H as [H1 H2]. rewrite forallb_forall in H2.
  split; [exact H1|]. split.
  - intros k d' Hin. exact (H2 _ Hin).
  - intros k l d' Hin Hy. specialize (H2 _ Hin). cbn [snd] in H2.
    rewrite forallb_forall in H2. exact (H2 _ Hy).
Qed.

Section Idempotence.

Variable set_order : list json -> list json.
Hypothesis set_order_spec : set_order_ok set_order.

Lemma step (v : dict) :
  cleanup_schema set_order v
  = (v' <- cleanup_node set_order v ;;
     cleanup_items (cleanup_schema set_order) v').
Proof. exact (cleanup_schema_step set_order set_order_spec v). Qed.




Lemma cleanup_items_mem (rec : dict -> result dict) (k : string) (a v1 : dict) :
  cleanup_items rec a = Ok v1 -> dict_mem k v1 = dict_mem k a.
Proof.
  intros H. pose proof (cleanup_items_get _ _ _ H k) as G.
  unfold dict_mem. destruct (dict_get k a).
  - destruct G as [x1 [_ ->]]. reflexivity.
  - now rewrite G.
Qed.


(** the [enum] of a node after [_cleanup_schema] *)
Lemma cleanup_schema_enum (v v1 : dict) (l : list json) :
  cleanup_schema set_order v = Ok v1 ->
  dict_get "enum" v1 = Some (JArr l) ->
  exists l0,
    dict_get "enum" v = Some (JArr l0)
    /\ forallb hashable l0 = true
    /\ l = set_order l0.
Proof.
  intros H G. rewrite step in H. bind_inv H.
  pose proof (cleanup_items_get _ _ _ H "enum") as I.
  destruct (dict_get "enum" a) as [x|] eqn:Ga; [|congruence].
  destruct I as [x1 [Cx Gx]]. rewrite G in Gx. injection Gx as <-.
  apply cleanup_value_to_JArr in Cx as [l3 [-> M]].
  destruct (cleanup_node_enum set_order v a l3 E Ga) as [l0 [G0 [F ->]]].
  rewrite mapM_cleanup_element_hashable in M
    by now apply set_order_hashable.
  injection M as <-. now exists l0.
Qed.





End Idempotence.

(** ** The triples after [_cleanup_schema] *)







Section Triples.

Variable set_order : list json -> list json.
Hypothesis set_order_spec : set_order_ok set_order.

Local Abbreviation rec := (cleanup_schema set_order).








Lemma chars_cleaned (s : string) :
  Forall2 (fun y y1 => cleanup_element rec y = Ok y1) (chars s) (chars s).
Proof. induction s as [|c t IH]; simpl; constructor; auto. Qed.




End Triples.

(** ** What one block of [_fix_kind] leaves behind *)





Lemma close_schema_get (k : string) (v : dict) :
  k <> "additionalProperties" -> dict_get k (close_schema v) = dict_get k v.
Proof.
  intros N. unfold close_schema. destruct (dict_mem preserve_key v);
    [reflexivity|]. now rewrite dict_get_set_other by congruence.
Qed.





Section SecondPass.

Variable set_order : list json -> list json.
Hypothesis set_order_spec : set_order_ok set_order.

Local Abbreviation rec := (cleanup_schema set_order).



(** *** What the first pass leaves *)

Section FirstPass.

Variables v wk w0 v1 : dict.
Hypothesis fixed_kind : fix_property "kind" collect_kinds v = Ok wk.
Hypothesis fixed_api :
  fix_property "apiVersion" collect_api_versions wk = Ok w0.
Hypothesis cleaned : rec (close_schema w0) = Ok v1.






End FirstPass.

End SecondPass.

Section Again.

Variable set_order : list json -> list json.
Hypothesis set_order_spec : set_order_ok set_order.

Local Abbreviation rec := (cleanup_schema set_order).






End Again.




(** With a set that does not iterate its own iteration in the same order
    the second pass reorders an enum (two members that share a slot of the
    set's table, as 7 and 15 do in a table of eight slots, come out with
    the later one first). *)
Lemma normalise_twice_reorders :
  set_order_ok reverse_order
  /\ normalise reverse_order [("E", JObj enum_node)]
     = Ok [("E", JObj [("enum", JArr [JInt 15; JInt 7]);
                       ("additionalProperties", JBool false)])]
  /\ normalise reverse_order
       [("E", JObj [("enum", JArr [JInt 15; JInt 7]);
                    ("additionalProperties", JBool false)])]
     = Ok [("E", JObj [("enum", JArr [JInt 7; JInt 15]);
                       ("additionalProperties", JBool false)])].
Proof. split; [exact reverse_order_ok|]. split; reflexivity. Qed.

(** * Further properties of the code *)

(** ** [_cleanup_schema]: what holds of every dict it visited *)

Lemma visited_all_intro (p : dict -> bool) (d : dict) :
  p d = true ->
  (forall k d', In (k, JObj d') d -> visited_all p (JObj d') = true) ->
  (forall k l d', In (k, JArr l) d -> In (JObj d') l ->
     visited_all p (JObj d') = true) ->
  visited_all p (JObj d) = true.
Proof.
  intros H1 H2 H3.
  change (p d
          && forallb
               (fun kv =>
                  match snd kv with
                  | JObj _ => visited_all p (snd kv)
                  | JArr l =>
                      forallb
                        (fun y => match y with
                                  | JObj _ => visited_all p y
                                  | _ => true
                                  end) l
                  | _ => true
                  end) d = true).
  rewrite H1. cbn [andb]. apply forallb_forall. intros [k x] Hin. cbn [snd].
  destruct x as [| | | |l|d']; try reflexivity.
  - apply forallb_forall. intros y Hy.
    destruct y as [| | | | |d']; try reflexivity.
    exact (H3 k l d' Hin Hy).
  - exact (H2 k d' Hin).
Qed.

Section Visited.

Variable set_order : list json -> list json.

(** a property the steps of lines 54-70 establish and the loop of line 72
    keeps holds of every dict visited in the result *)
Lemma cleanup_fuel_invariant (p : dict -> bool) :
  (forall rec v a v',
     cleanup_node set_order v = Ok a -> cleanup_items rec a = Ok v' ->
     p v' = true) ->
  forall n v v', cleanup_fuel set_order n v = Ok v' ->
    visited_all p (JObj v') = true.
Proof.
  intros P. induction n as [|n IH]; intros v v' H; [discriminate H|].
  rewrite cleanup_fuel_S in H. bind_inv H.
  pose proof (cleanup_items_entries _ _ _ H) as En.
  apply visited_all_intro.
  - exact (P _ _ _ _ E H).
  - intros k d' Hin.
    destruct (Forall2_in_r _ _ _ En _ Hin) as [[k0 x] [_ [_ Cx]]].
    cbn [snd] in Cx. apply cleanup_value_to_JObj in Cx as [d [-> Cd]].
    exact (IH _ _ Cd).
  - intros k l d' Hin Hy.
    destruct (Forall2_in_r _ _ _ En _ Hin) as [[k0 x] [_ [_ Cx]]].
    cbn [snd] in Cx. apply cleanup_value_to_JArr in Cx as [l0 [-> M]].
    apply mapM_Forall2 in M.
    destruct (Forall2_in_r _ _ _ M _ Hy) as [y [_ Cy]].
    apply cleanup_element_to_JObj in Cy as [d [-> Cd]].
    exact (IH _ _ Cd).
Qed.

Lemma cleanup_node_items_no_default (rec : dict -> result dict) (v a v' : dict) :
  cleanup_node set_order v = Ok a -> cleanup_items rec a = Ok v' ->
  no_default v' = true.
Proof.
  intros E H. unfold no_default.
  rewrite (cleanup_items_mem _ "default" _ _ H). unfold dict_mem.
  now rewrite (cleanup_node_no_default set_order v a E).
Qed.

(** X1: after [_cleanup_schema] no dict it visited has a key [default]:
    the schema's own default goes, and so does a property that is named
    [default]. *)
Theorem cleanup_schema_no_default (v v' : dict) :
  cleanup_schema set_order v = Ok v' ->
  visited_all no_default (JObj v') = true.
Proof.
  unfold cleanup_schema. intros H.
  apply (cleanup_fuel_invariant no_default) with (n := depth (JObj v)) (v := v).
  - intros rec w a w' E I. exact (cleanup_node_items_no_default rec w a w' E I).
  - exact H.
Qed.

Hypothesis set_order_spec : set_order_ok set_order.

Lemma cleanup_node_items_enum_distinct
    (rec : dict -> result dict) (v a v' : dict) :
  cleanup_node set_order v = Ok a -> cleanup_items rec a = Ok v' ->
  enum_distinct v' = true.
Proof.
  intros E H. unfold enum_distinct.
  destruct (dict_get "enum" v') as [[| | | |l|]|] eqn:G; try reflexivity.
  pose proof (cleanup_items_get _ _ _ H "enum") as I.
  destruct (dict_get "enum" a) as [x|] eqn:Ga; [|congruence].
  destruct I as [x' [Cx Gx]]. rewrite G in Gx. injection Gx as <-.
  apply cleanup_value_to_JArr in Cx as [l3 [-> M]].
  destruct (cleanup_node_enum set_order v a l3 E Ga) as [l0 [G0 [F ->]]].
  rewrite mapM_cleanup_element_hashable in M
    by now apply (set_order_hashable set_order set_order_spec).
  injection M as <-.
  rewrite (set_order_hashable set_order set_order_spec l0 F). cbn [andb].
  exact (proj2 (proj2 (set_order_spec l0 F))).
Qed.

(** X2: after [_cleanup_schema] an [enum] list of a visited dict holds no
    two values that Python finds equal; [1] and [true] are such values, so
    of an enum listing both one member is left. *)
Theorem cleanup_schema_enum_distinct (v v' : dict) :
  cleanup_schema set_order v = Ok v' ->
  visited_all enum_distinct (JObj v') = true.
Proof.
  unfold cleanup_schema. intros H.
  apply (cleanup_fuel_invariant enum_distinct) with (n := depth (JObj v)) (v := v).
  - intros rec w a w' E I.
    exact (cleanup_node_items_enum_distinct rec w a w' E I).
  - exact H.
Qed.

End Visited.

Lemma cleanup_schema_no_default_witness :
  cleanup_schema insertion_order defaults_node
  = Ok [("properties", JObj [("name", JObj [("type", JStr "string")])])]
  /\ visited_all no_default
       (JObj [("properties", JObj [("name", JObj [("type", JStr "string")])])])
     = true.
Proof.
  split; [reflexivity|].
  apply (cleanup_schema_no_default insertion_order defaults_node). reflexivity.
Defined.

Lemma cleanup_schema_enum_distinct_witness :
  set_order_ok insertion_order
  /\ cleanup_schema insertion_order mixed_enum_node
     = Ok [("enum", JArr [JInt 1; JStr "a"]);
           ("items", JArr [JObj [("enum", JArr [JInt 0])]])]
  /\ visited_all enum_distinct
       (JObj [("enum", JArr [JInt 1; JStr "a"]);
              ("items", JArr [JObj [("enum", JArr [JInt 0])]])])
     = true.
Proof.
  split; [exact insertion_order_ok|]. split; [reflexivity|].
  apply (cleanup_schema_enum_distinct insertion_order insertion_order_ok
           mixed_enum_node).
  reflexivity.
Defined.

(** ** [_cleanup_schema]: the steps on one node *)

Lemma cleanup_schema_unfold (set_order : list json -> list json) (v : dict) :
  cleanup_schema set_order v
  = (a <- cleanup_node set_order v ;;
     cleanup_items (cleanup_fuel set_order (vdepth v)) a).
Proof. unfold cleanup_schema. rewrite depth_JObj. apply cleanup_fuel_S. Qed.

(** X3: an [enum] list with a member that is a list or a dict makes
    [_cleanup_schema] raise [TypeError] at line 70, when the steps before it
    went through. *)
Theorem cleanup_schema_unhashable_enum
    (set_order : list json -> list json) (v v1 : dict) (l : list json) :
  hoist_allOf (dict_pop "default" v) = Ok v1 ->
  dict_get "enum" v = Some (JArr l) ->
  forallb hashable l = false ->
  cleanup_schema set_order v = Raise TypeError.
Proof.
  intros Hh G F. rewrite cleanup_schema_unfold. unfold cleanup_node.
  rewrite Hh. cbn [bind]. unfold dedup_enum.
  rewrite rewrite_ref_get by discriminate.
  rewrite (hoist_allOf_get _ _ "enum" Hh) by discriminate.
  rewrite dict_get_pop_other by discriminate.
  rewrite G, F. reflexivity.
Qed.

Lemma cleanup_schema_unhashable_enum_witness :
  hoist_allOf (dict_pop "default" dict_enum_node) = Ok dict_enum_node
  /\ dict_get "enum" dict_enum_node = Some (JArr [JObj [("a", JInt 1)]])
  /\ forallb hashable [JObj [("a", JInt 1)]] = false
  /\ cleanup_schema insertion_order dict_enum_node = Raise TypeError.
Proof.
  split; [reflexivity|]. split; [reflexivity|]. split; [reflexivity|].
  apply (cleanup_schema_unhashable_enum insertion_order dict_enum_node
           dict_enum_node [JObj [("a", JInt 1)]]); reflexivity.
Defined.

Lemma hoist_allOf_single_ref (v : dict) (r : json) :
  dict_get "allOf" v = Some (JArr [JObj [("$ref", r)]]) ->
  hoist_allOf v = Ok (dict_set "$ref" r (dict_pop "allOf" v)).
Proof. intros G. unfold hoist_allOf. rewrite G. reflexivity. Qed.

(** X4: a one-element [allOf] whose element is [{"$ref": s}] is taken out
    of the node and its reference, rewritten, becomes the node's [$ref],
    in place of a [$ref] the node had. *)
Theorem cleanup_schema_hoists_ref
    (set_order : list json -> list json) (v : dict) (s : string) :
  dict_get "allOf" v = Some (JArr [JObj [("$ref", JStr s)]]) ->
  cleanup_node set_order v
  = dedup_enum set_order
      (dict_set "$ref" (JStr (rewrite_ref_string s))
         (dict_pop "allOf" (dict_pop "default" v)))
  /\ forall v',
       cleanup_schema set_order v = Ok v' ->
       dict_get "$ref" v' = Some (JStr (rewrite_ref_string s))
       /\ dict_get "allOf" v' = None.
Proof.
  intros G.
  assert (G0 : dict_get "allOf" (dict_pop "default" v)
               = Some (JArr [JObj [("$ref", JStr s)]]))
    by (rewrite dict_get_pop_other by discriminate; exact G).
  assert (R : rewrite_ref
                (dict_set "$ref" (JStr s) (dict_pop "allOf" (dict_pop "default" v)))
              = dict_set "$ref" (JStr (rewrite_ref_string s))
                  (dict_pop "allOf" (dict_pop "default" v))).
  { unfold rewrite_ref. rewrite dict_get_set_same. apply dict_set_twice. }
  assert (N : cleanup_node set_order v
              = dedup_enum set_order
                  (dict_set "$ref" (JStr (rewrite_ref_string s))
                     (dict_pop "allOf" (dict_pop "default" v)))).
  { unfold cleanup_node. rewrite (hoist_allOf_single_ref _ _ G0). cbn [bind].
    now rewrite R. }
  split; [exact N|].
  intros v' H. rewrite cleanup_schema_unfold, N in H. bind_inv H.
  pose proof (dedup_enum_get set_order _ _ "$ref" E) as Gr.
  pose proof (dedup_enum_get set_order _ _ "allOf" E) as Ga.
  rewrite dict_get_set_same in Gr.
  rewrite dict_get_set_other, dict_get_pop_same in Ga by discriminate.
  split.
  - pose proof (cleanup_items_get _ _ _ H "$ref") as I.
    rewrite Gr in I by discriminate. destruct I as [x' [Cx Gx]].
    cbn [cleanup_value] in Cx. injection Cx as <-. exact Gx.
  - pose proof (cleanup_items_get _ _ _ H "allOf") as I.
    rewrite Ga in I by discriminate. exact I.
Qed.

Lemma cleanup_schema_hoists_ref_witness :
  dict_get "allOf" ref_and_allOf_node
  = Some (JArr [JObj [("$ref", JStr "#/components/schemas/New")]])
  /\ cleanup_schema insertion_order ref_and_allOf_node
     = Ok [("$ref", JStr "#/definitions/New"); ("description", JStr "d")]
  /\ dict_get "$ref" [("$ref", JStr "#/definitions/New"); ("description", JStr "d")]
     = Some (JStr (rewrite_ref_string "#/components/schemas/New"))
  /\ dict_get "allOf" [("$ref", JStr "#/definitions/New"); ("description", JStr "d")]
     = None.
Proof.
  split; [reflexivity|]. split; [reflexivity|].
  apply (proj2 (cleanup_schema_hoists_ref insertion_order ref_and_allOf_node
                  "#/components/schemas/New" eq_refl)).
  reflexivity.
Defined.

(** ** [_cleanup_schema]: what it leaves as it is *)

Lemma cleanup_node_no_special_key (set_order : list json -> list json) (v : dict) :
  no_special_key v = true -> cleanup_node set_order v = Ok v.
Proof.
  unfold no_special_key, dict_mem. intros H.
  destruct (dict_get "default" v) eqn:G1; [discriminate H|].
  destruct (dict_get "allOf" v) eqn:G2; [discriminate H|].
  destruct (dict_get "$ref" v) eqn:G3; [discriminate H|].
  destruct (dict_get "enum" v) eqn:G4; [discriminate H|].
  unfold cleanup_node. rewrite (dict_pop_absent _ _ G1).
  unfold hoist_allOf. rewrite G2. cbn [bind].
  unfold rewrite_ref. rewrite G3. unfold dedup_enum. now rewrite G4.
Qed.

Lemma cleanup_fuel_no_special_key (set_order : list json -> list json) (n : nat) :
  forall v, depth (JObj v) <= n ->
    visited_all no_special_key (JObj v) = true ->
    cleanup_fuel set_order n v = Ok v.
Proof.
  induction n as [|n IH]; intros v D H.
  - rewrite depth_JObj in D. lia.
  - rewrite cleanup_fuel_S.
    apply visited_all_JObj in H as [H1 [H2 H3]].
    rewrite (cleanup_node_no_special_key set_order v H1). cbn [bind].
    rewrite depth_JObj in D. apply le_S_n in D.
    unfold cleanup_items.
    apply mapM_fixed. intros [k x] Hin. cbn [fst snd].
    pose proof (depth_value k x v Hin) as Dx.
    destruct x as [| | | |l|d]; try reflexivity.
    + cbn [cleanup_value].
      rewrite mapM_fixed; [reflexivity|]. intros y Hy.
      destruct y as [| | | | |d]; try reflexivity.
      cbn [cleanup_element].
      rewrite IH; [reflexivity| |exact (H3 k l d Hin Hy)].
      pose proof (proj1 (depth_JArr_le l (vdepth v)) Dx _ Hy). lia.
    + cbn [cleanup_value]. rewrite IH; [reflexivity|lia|exact (H2 k d Hin)].
Qed.

(** X5: a schema in which no dict that [_cleanup_schema] visits has a key
    [default], [allOf], [$ref] or [enum] is returned as it was given. *)
Theorem cleanup_schema_plain_unchanged
    (set_order : list json -> list json) (v : dict) :
  visited_all no_special_key (JObj v) = true ->
  cleanup_schema set_order v = Ok v.
Proof.
  intros H. unfold cleanup_schema.
  apply cleanup_fuel_no_special_key; [apply le_n | exact H].
Qed.

Lemma cleanup_schema_plain_unchanged_witness :
  visited_all no_special_key (JObj plain_node) = true
  /\ cleanup_schema reverse_order plain_node = Ok plain_node.
Proof.
  split; [reflexivity|].
  apply (cleanup_schema_plain_unchanged reverse_order plain_node). reflexivity.
Defined.

Lemma cleanup_value_passed_over (rec : dict -> result dict) (x : json) :
  passed_over x = true -> cleanup_value rec x = Ok x.
Proof.
  destruct x as [| | | |l|d]; try reflexivity; [|discriminate].
  cbn [passed_over cleanup_value]. intros H.
  rewrite mapM_fixed; [reflexivity|]. intros y Hy.
  rewrite forallb_forall in H. specialize (H y Hy).
  destruct y; try reflexivity. discriminate H.
Qed.

Lemma cleanup_schema_plain_entry
    (set_order : list json -> list json) (v v' : dict) (k : string) :
  cleanup_schema set_order v = Ok v' ->
  plain_key k ->
  dict_mem k v' = dict_mem k v
  /\ forall x, dict_get k v = Some x -> passed_over x = true ->
               dict_get k v' = Some x.
Proof.
  intros H P. rewrite cleanup_schema_unfold in H. bind_inv H.
  pose proof (cleanup_node_get set_order v a k E P) as Gk.
  pose proof (cleanup_items_get _ _ _ H k) as I. rewrite Gk in I.
  split.
  - unfold dict_mem. destruct (dict_get k v) as [x|].
    + destruct I as [x' [_ Gx]]. now rewrite Gx.
    + now rewrite I.
  - intros x Gx Px. rewrite Gx in I. destruct I as [x' [Cx Gx']].
    rewrite (cleanup_value_passed_over _ x Px) in Cx. injection Cx as <-.
    exact Gx'.
Qed.

(** X6: under a key other than [default], [allOf], [$ref] and [enum],
    [_cleanup_schema] neither adds nor drops an entry of the node it is
    called on, and leaves the value as it is when that is not a dict and
    not a list with a dict in it. *)
Theorem cleanup_schema_keeps_plain_entries
    (set_order : list json -> list json) (v v' : dict) (k : string) :
  cleanup_schema set_order v = Ok v' ->
  plain_key k ->
  dict_mem k v' = dict_mem k v
  /\ forall x, dict_get k v = Some x -> passed_over x = true ->
               dict_get k v' = Some x.
Proof.
  intros H P. exact (cleanup_schema_plain_entry set_order v v' k H P).
Qed.

Lemma cleanup_schema_keeps_plain_entries_witness :
  cleanup_schema insertion_order ref_and_allOf_node
  = Ok [("$ref", JStr "#/definitions/New"); ("description", JStr "d")]
  /\ plain_key "description"
  /\ dict_mem "description"
       [("$ref", JStr "#/definitions/New"); ("description", JStr "d")]
     = dict_mem "description" ref_and_allOf_node
  /\ forall x,
       dict_get "description" ref_and_allOf_node = Some x ->
       passed_over x = true ->
       dict_get "description"
         [("$ref", JStr "#/definitions/New"); ("description", JStr "d")]
       = Some x.
Proof.
  split; [reflexivity|].
  split; [repeat split; discriminate|].
  apply (cleanup_schema_keeps_plain_entries insertion_order ref_and_allOf_node
           [("$ref", JStr "#/definitions/New"); ("description", JStr "d")]
           "description").
  - reflexivity.
  - repeat split; discriminate.
Defined.

(** ** The rewrite of a reference *)

Lemma rewrite_ref_string_prefix (x : string) :
  rewrite_ref_string (components_prefix ++ x)%string
  = (definitions_prefix ++ rewrite_ref_string x)%string.
Proof.
  unfold components_prefix at 1. cbn [String.append].
  rewrite rewrite_ref_string_hit by reflexivity. reflexivity.
Qed.

(** X7: the rewrite of line 67 is not tied to the start of the string:
    [#/components/schemas/] after any text without [#] is replaced too, and
    the text before and after it is kept. *)
Theorem rewrite_ref_string_inside (a x : string) :
  no_hash a = true ->
  occurs components_prefix x = false ->
  rewrite_ref_string (a ++ components_prefix ++ x)%string
  = (a ++ definitions_prefix ++ x)%string.
Proof.
  intros Ha Hx. induction a as [|c a IH].
  - cbn [String.append]. rewrite rewrite_ref_string_prefix.
    now rewrite (rewrite_ref_string_fixed x Hx).
  - cbn [no_hash] in Ha. apply andb_true_iff in Ha as [Hc Ha].
    cbn [String.append].
    rewrite rewrite_ref_string_miss.
    + now rewrite (IH Ha).
    + unfold components_prefix. rewrite starts_with_cons.
      apply negb_true_iff in Hc. rewrite Ascii.eqb_sym in Hc. now rewrite Hc.
Qed.

Lemma rewrite_ref_string_inside_witness :
  no_hash "other.json" = true
  /\ occurs components_prefix "Pod" = false
  /\ rewrite_ref_string "other.json#/components/schemas/Pod"
     = "other.json#/definitions/Pod"%string.
Proof.
  split; [reflexivity|]. split; [reflexivity|].
  exact (rewrite_ref_string_inside "other.json" "Pod" eq_refl eq_refl).
Defined.

(** ** [_fix_kind]: the two enums *)

Lemma collect_kinds_first_seen (items : list json) :
  forall acc,
    collect_kinds items acc
    = (kinds <- kinds_of items ;; Ok (first_seen kinds acc)).
Proof.
  unfold kinds_of.
  induction items as [|k t IH]; intros acc; [reflexivity|].
  cbn [collect_kinds mapM].
  destruct (py_getitem k "kind") as [kind| | |]; cbn [bind]; try reflexivity.
  rewrite IH. destruct (mapM (fun k0 => py_getitem k0 "kind") t);
    reflexivity.
Qed.

Lemma path_get_written (f : string) (nd pd v : dict) (x : json) :
  path_get ["properties"; f; "enum"]
    (JObj (dict_set "properties"
             (JObj (dict_set f (JObj (dict_set "enum" x nd)) pd)) v))
  = Some x.
Proof.
  cbn [path_get]. now rewrite !dict_get_set_same.
Qed.

Lemma fix_property_get_field (f f' : string)
    (c : list json -> list json -> result (list json)) (x y : dict)
    (px : dict) (n : json) :
  fix_property f' c x = Ok y -> f' <> f ->
  dict_get "properties" x = Some (JObj px) -> dict_get f px = Some n ->
  exists py, dict_get "properties" y = Some (JObj py) /\ dict_get f py = Some n.
Proof.
  intros H N Gp Gf.
  destruct (fix_property_cases _ _ _ _ H) as [props [Gp' C]].
  rewrite Gp in Gp'. injection Gp' as <-.
  destruct C as [[_ ->] | [pd [nd [g [items [enum [Ep [_ [_ [_ [_ ->]]]]]]]]]]].
  - now exists px.
  - injection Ep as <-.
    eexists. split; [apply dict_get_set_same|].
    now rewrite dict_get_set_other by exact N.
Qed.

(** X8: the block of lines 82-86 leaves in [properties.kind.enum] the kinds
    of the triples, each once, in the order of their first occurrence; an
    enum the node had there is not looked at. *)
Theorem fix_kind_kind_enum
    (v pd nd : dict) (g : json) (items kinds : list json) :
  dict_get gvk_key v = Some g ->
  py_iter g = Ok items ->
  kinds_of items = Ok kinds ->
  dict_get "properties" v = Some (JObj pd) ->
  dict_get "kind" pd = Some (JObj nd) ->
  fix_property "kind" collect_kinds v
  = Ok (dict_set "properties"
          (JObj (dict_set "kind"
                   (JObj (dict_set "enum" (JArr (insertion_order kinds)) nd)) pd))
          v)
  /\ forall v',
       fix_kind v = Ok v' ->
       path_get ["properties"; "kind"; "enum"] (JObj v')
       = Some (JArr (insertion_order kinds)).
Proof.
  intros Gg Gi Gk Gp Gn.
  assert (F : fix_property "kind" collect_kinds v
              = Ok (dict_set "properties"
                      (JObj (dict_set "kind"
                               (JObj (dict_set "enum"
                                        (JArr (insertion_order kinds)) nd)) pd))
                      v)).
  { unfold fix_property, py_getitem, py_in, dict_mem.
    rewrite Gp. cbn [bind]. rewrite Gn. cbn [bind]. rewrite Gg. cbn [bind].
    rewrite Gi. cbn [bind]. rewrite collect_kinds_first_seen, Gk.
    reflexivity. }
  split; [exact F|].
  intros v' H. unfold fix_kind in H.
  unfold dict_mem in H. rewrite Gg, F in H. cbn [bind] in H.
  destruct (fix_property_get_field "kind" "apiVersion" _ _ _
              (dict_set "kind"
                 (JObj (dict_set "enum" (JArr (insertion_order kinds)) nd)) pd)
              (JObj (dict_set "enum" (JArr (insertion_order kinds)) nd)) H)
    as [py [Gpy Gky]].
  - discriminate.
  - apply dict_get_set_same.
  - apply dict_get_set_same.
  - cbn [path_get]. rewrite Gpy, Gky. now rewrite dict_get_set_same.
Qed.

Lemma fix_kind_kind_enum_witness :
  dict_get gvk_key scale_node
  = Some (JArr [gvk "apps" "v1" "Scale"; gvk "autoscaling" "v1" "Scale";
                gvk "apps" "v1beta1" "Scale"])
  /\ kinds_of [gvk "apps" "v1" "Scale"; gvk "autoscaling" "v1" "Scale";
               gvk "apps" "v1beta1" "Scale"]
     = Ok [JStr "Scale"; JStr "Scale"; JStr "Scale"]
  /\ insertion_order [JStr "Scale"; JStr "Scale"; JStr "Scale"] = [JStr "Scale"]
  /\ exists v',
       fix_kind scale_node = Ok v'
       /\ path_get ["properties"; "kind"; "enum"] (JObj v')
          = Some (JArr (insertion_order [JStr "Scale"; JStr "Scale"; JStr "Scale"])).
Proof.
  split; [reflexivity|]. split; [reflexivity|]. split; [reflexivity|].
  eexists. split; [reflexivity|].
  apply (proj2 (fix_kind_kind_enum scale_node _ _ _ _ _
                  eq_refl eq_refl eq_refl eq_refl eq_refl)).
  reflexivity.
Defined.

Lemma collect_api_versions_all (items : list json) :
  forall acc groups versions,
    groups_of items = Ok groups ->
    api_versions_of items = Ok versions ->
    (forall g, In g groups -> list_contains g (acc ++ versions) = false) ->
    collect_api_versions items acc = Ok (acc ++ versions).
Proof.
  unfold groups_of, api_versions_of.
  induction items as [|k t IH]; intros acc groups versions Hg Hv N.
  - injection Hv as <-. cbn [collect_api_versions]. now rewrite app_nil_r.
  - cbn [mapM] in Hg, Hv. bind_inv Hg. bind_inv Hg. injection Hg as <-.
    bind_inv Hv. bind_inv Hv. injection Hv as <-.
    cbn [collect_api_versions]. rewrite E. cbn [bind].
    pose proof (N a (or_introl eq_refl)) as Na.
    rewrite list_contains_app in Na. apply orb_false_iff in Na as [Na _].
    rewrite Na, E1. cbn [bind].
    rewrite (IH (acc ++ [a1]) a0 a2 eq_refl eq_refl).
    + now rewrite <- app_assoc.
    + intros g Hin. rewrite <- app_assoc. apply N. now right.
Qed.

(** X9: when no triple has for its group a string that is also the
    [apiVersion] string of a triple, the block of lines 88-96 leaves in
    [properties.apiVersion.enum] the [apiVersion] string of every triple, in
    the order of the triples and as often as triples have it. *)
Theorem fix_kind_api_version_enum
    (v v' pd : dict) (g : json) (items groups versions : list json) :
  fix_kind v = Ok v' ->
  dict_get gvk_key v = Some g ->
  py_iter g = Ok items ->
  groups_of items = Ok groups ->
  api_versions_of items = Ok versions ->
  (forall x, In x groups -> list_contains x versions = false) ->
  dict_get "properties" v = Some (JObj pd) ->
  dict_mem "apiVersion" pd = true ->
  path_get ["properties"; "apiVersion"; "enum"] (JObj v') = Some (JArr versions).
Proof.
  intros H Gg Gi Hg Hv N Gp Ma.
  unfold fix_kind, dict_mem in H. rewrite Gg in H. bind_inv H.
  apply dict_mem_get in Ma as [n Gn].
  destruct (fix_property_get_field "apiVersion" "kind" _ _ _ pd n E)
    as [p1 [Gp1 Gn1]]; [discriminate | exact Gp | exact Gn |].
  pose proof (fix_property_get _ _ _ _ gvk_key E) as Gg1.
  rewrite Gg in Gg1.
  destruct (fix_property_cases _ _ _ _ H) as [props [Gp' C]].
  rewrite Gp1 in Gp'. injection Gp' as <-.
  destruct C as [[I _] | [pd1 [nd [g1 [items1 [enum [Ep [_ [Gg' [Gi' [Ce ->]]]]]]]]]]].
  - cbn [py_in] in I. unfold dict_mem in I. rewrite Gn1 in I. discriminate I.
  - rewrite Gg1 in Gg' by (unfold gvk_key; discriminate).
    injection Gg' as <-. rewrite Gi in Gi'. injection Gi' as <-.
    rewrite (collect_api_versions_all items [] groups versions Hg Hv N) in Ce.
    injection Ce as <-. apply path_get_written.
Qed.

Lemma fix_kind_api_version_enum_witness :
  (exists v',
     fix_kind scale_node = Ok v'
     /\ path_get ["properties"; "apiVersion"; "enum"] (JObj v')
        = Some (JArr [JStr "apps/v1"; JStr "autoscaling/v1"; JStr "apps/v1beta1"]))
  /\ groups_of [gvk "apps" "v1" "Scale"; gvk "autoscaling" "v1" "Scale";
                gvk "apps" "v1beta1" "Scale"]
     = Ok [JStr "apps"; JStr "autoscaling"; JStr "apps"]
  /\ api_versions_of [gvk "apps" "v1" "Scale"; gvk "autoscaling" "v1" "Scale";
                      gvk "apps" "v1beta1" "Scale"]
     = Ok [JStr "apps/v1"; JStr "autoscaling/v1"; JStr "apps/v1beta1"].
Proof.
  split; [|split; reflexivity].
  eexists. split; [reflexivity|].
  eapply (fix_kind_api_version_enum scale_node _ _ _ _
            [JStr "apps"; JStr "autoscaling"; JStr "apps"]
            [JStr "apps/v1"; JStr "autoscaling/v1"; JStr "apps/v1beta1"]).
  - reflexivity.
  - reflexivity.
  - reflexivity.
  - reflexivity.
  - reflexivity.
  - intros x [<- | [<- | [<- | []]]]; reflexivity.
  - reflexivity.
  - reflexivity.
Defined.

(** ** [_fix_kind]: what it leaves as it is *)

Lemma fix_property_frame (f : string)
    (c : list json -> list json -> result (list json)) (x y : dict) :
  fix_property f c x = Ok y ->
  dict_keys y = dict_keys x
  /\ (forall k, k <> "properties" -> dict_get k y = dict_get k x)
  /\ (forall py, dict_get "properties" y = Some (JObj py) ->
        exists px,
          dict_get "properties" x = Some (JObj px)
          /\ dict_keys py = dict_keys px
          /\ forall k, k <> f -> dict_get k py = dict_get k px).
Proof.
  intros H.
  destruct (fix_property_cases _ _ _ _ H) as [props [Gp C]].
  destruct C as [[_ ->] | [pd [nd [g [items [enum [-> [Gn [_ [_ [_ ->]]]]]]]]]]].
  - split; [reflexivity|]. split; [reflexivity|].
    intros py Gy. exists py. now split.
  - split; [|split].
    + apply dict_keys_set_present. unfold dict_mem. now rewrite Gp.
    + intros k N. now rewrite dict_get_set_other by congruence.
    + intros py Gy. rewrite dict_get_set_same in Gy. injection Gy as <-.
      exists pd. split; [exact Gp|]. split.
      * apply dict_keys_set_present. unfold dict_mem. now rewrite Gn.
      * intros k N. now rewrite dict_get_set_other by congruence.
Qed.

(** X10: [_fix_kind] keeps the keys of the node and their order, changes no
    value of the node but [properties], and in [properties] keeps the keys
    and changes no value but those of [kind] and [apiVersion]. *)
Theorem fix_kind_frame (v v' : dict) :
  fix_kind v = Ok v' ->
  dict_keys v' = dict_keys v
  /\ (forall k, k <> "properties" -> dict_get k v' = dict_get k v)
  /\ (forall pd', dict_get "properties" v' = Some (JObj pd') ->
        exists pd,
          dict_get "properties" v = Some (JObj pd)
          /\ dict_keys pd' = dict_keys pd
          /\ forall f, f <> "kind" -> f <> "apiVersion" ->
                       dict_get f pd' = dict_get f pd).
Proof.
  unfold fix_kind. destruct (dict_mem gvk_key v).
  - intros H. bind_inv H.
    destruct (fix_property_frame _ _ _ _ E) as [K1 [O1 P1]].
    destruct (fix_property_frame _ _ _ _ H) as [K2 [O2 P2]].
    split; [congruence|]. split.
    + intros k N. now rewrite (O2 k N), (O1 k N).
    + intros pd' G. destruct (P2 pd' G) as [p1 [G1 [Kp1 Op1]]].
      destruct (P1 p1 G1) as [pd [G0 [Kp0 Op0]]].
      exists pd. split; [exact G0|]. split; [congruence|].
      intros f Nk Na. rewrite (Op1 f) by congruence. apply Op0. congruence.
  - intros H. injection H as <-.
    split; [reflexivity|]. split; [reflexivity|].
    intros pd' G. exists pd'. now split.
Qed.

Lemma fix_kind_frame_witness :
  exists v',
    fix_kind scale_node = Ok v'
    /\ dict_keys v' = dict_keys scale_node
    /\ (forall k, k <> "properties" -> dict_get k v' = dict_get k scale_node)
    /\ (forall pd', dict_get "properties" v' = Some (JObj pd') ->
          exists pd,
            dict_get "properties" scale_node = Some (JObj pd)
            /\ dict_keys pd' = dict_keys pd
            /\ forall f, f <> "kind" -> f <> "apiVersion" ->
                         dict_get f pd' = dict_get f pd).
Proof.
  eexists. split; [reflexivity|].
  apply (fix_kind_frame scale_node). reflexivity.
Defined.

(** ** [update]: the dict objects *)

Lemma nth_write_at_other (objs : list dict) :
  forall r r' d, r <> r' -> nth r (write_at r' d objs) [] = nth r objs [].
Proof.
  induction objs as [|o t IH]; intros r r' d N; [now destruct r'|].
  destruct r' as [|r']; destruct r as [|r]; cbn [write_at nth];
    try reflexivity; try congruence.
  apply IH. congruence.
Qed.

Lemma deref_fill_rebind (sc : SchemaCache) (d d' : dict) (r : nat) :
  r < List.length (objects sc) ->
  deref (fill (rebind sc d) d') r = deref sc r.
Proof.
  intros L. unfold deref, fill, mutate, rebind. cbn.
  rewrite nth_write_at_other by lia. now apply app_nth1.
Qed.

Lemma update_cases (set_order : list json -> list json) (c : cluster)
    (sc sc' : SchemaCache) :
  update set_order c sc = Ok sc' ->
  (status_code (catalog c) <> 200%Z /\ sc' = rebind sc [])
  \/ exists doc index keys merged final,
       status_code (catalog c) = 200%Z
       /\ resp_json (catalog c) = Ok doc
       /\ py_get doc "paths" = Ok index
       /\ py_keys index = Ok keys
       /\ fetch_paths c keys [] = Ok merged
       /\ normalise set_order merged = Ok final
       /\ sc' = fill (rebind sc []) final.
Proof.
  unfold update. destruct (status_code (catalog c) =? 200)%Z eqn:S.
  - intros H. right. apply Z.eqb_eq in S.
    bind_inv H. bind_inv H. bind_inv H. bind_inv H. bind_inv H.
    injection H as <-. exists a, a0, a1, a2, a3. now repeat split.
  - intros H. left. apply Z.eqb_neq in S. injection H as <-. now split.
Qed.

(** X11: a cycle that ends without an exception has bound the store to a
    dict object that did not exist before, and has changed none of the
    objects that did: a dict handed out by [schemas] before the cycle shows
    after it what it showed before. *)
Theorem update_keeps_old_objects
    (set_order : list json -> list json) (c : cluster) (sc sc' : SchemaCache) :
  update set_order c sc = Ok sc' ->
  schemas sc' = List.length (objects sc)
  /\ forall r, r < List.length (objects sc) -> deref sc' r = deref sc r.
Proof.
  intros H.
  destruct (update_cases _ _ _ _ H)
    as [[_ ->] | [doc [index [keys [merged [final [_ [_ [_ [_ [_ [_ ->]]]]]]]]]]]].
  - split; [reflexivity|]. intros r L. now apply deref_rebind.
  - split; [reflexivity|]. intros r L. now apply deref_fill_rebind.
Qed.

Lemma update_keeps_old_objects_witness :
  exists sc',
    update insertion_order one_missing_cluster pod_cache = Ok sc'
    /\ schemas sc' = List.length (objects pod_cache)
    /\ forall r, r < List.length (objects pod_cache) ->
                 deref sc' r = deref pod_cache r.
Proof.
  eexists. split; [reflexivity|].
  apply (update_keeps_old_objects insertion_order one_missing_cluster pod_cache).
  reflexivity.
Defined.

(** X12: what a cycle leaves in the store does not depend on what the
    store held: started from any other cache the cycle ends the same way
    and with the same store. *)
Theorem update_from_scratch
    (set_order : list json -> list json) (c : cluster)
    (sc1 sc2 sc1' : SchemaCache) :
  update set_order c sc1 = Ok sc1' ->
  exists sc2',
    update set_order c sc2 = Ok sc2'
    /\ store sc2' = store sc1'
    /\ paths sc2' = paths sc1'.
Proof.
  intros H.
  destruct (update_cases _ _ _ _ H)
    as [[S ->] | [doc [index [keys [merged [final [S [D [I [K [F [N ->]]]]]]]]]]]].
  - exists (rebind sc2 []). unfold update.
    apply Z.eqb_neq in S. rewrite S. unfold paths.
    now rewrite !store_rebind.
  - exists (fill (rebind sc2 []) final). unfold update.
    apply Z.eqb_eq in S. rewrite S, D. cbn [bind]. rewrite I. cbn [bind].
    rewrite K. cbn [bind]. rewrite F. cbn [bind]. rewrite N. cbn [bind].
    unfold paths. now rewrite !store_fill.
Qed.

Lemma update_from_scratch_witness :
  exists sc1',
    update insertion_order one_missing_cluster pod_cache = Ok sc1'
    /\ exists sc2',
         update insertion_order one_missing_cluster init = Ok sc2'
         /\ store sc2' = store sc1'
         /\ paths sc2' = paths sc1'.
Proof.
  eexists. split; [reflexivity|].
  apply (update_from_scratch insertion_order one_missing_cluster pod_cache init).
  reflexivity.
Defined.

(** ** [update]: closing the definitions *)

(** X13: the pass over a definition that is a dict leaves it with
    [additionalProperties] set to [false], whatever it had there, unless the
    definition has the key [x-kubernetes-preserve-unknown-fields]; with that
    key no [additionalProperties] is added. *)
Theorem normalise_value_closes
    (set_order : list json -> list json) (v : dict) (x' : json) :
  normalise_value set_order (JObj v) = Ok x' ->
  exists v',
    x' = JObj v'
    /\ (dict_mem preserve_key v = false ->
        dict_get "additionalProperties" v' = Some (JBool false))
    /\ (dict_mem preserve_key v = true ->
        dict_mem "additionalProperties" v' = dict_mem "additionalProperties" v).
Proof.
  cbn [normalise_value]. intros H. bind_inv H. bind_inv H. injection H as <-.
  exists a0. split; [reflexivity|].
  assert (P : plain_key "additionalProperties") by (repeat split; discriminate).
  destruct (cleanup_schema_plain_entry set_order _ _ _ E0 P) as [M G].
  assert (Mp : dict_mem preserve_key a = dict_mem preserve_key v).
  { unfold dict_mem.
    rewrite (fix_kind_get v a preserve_key E)
      by (unfold preserve_key; discriminate).
    reflexivity. }
  split; intros Hp.
  - apply G; [|reflexivity]. unfold close_schema. rewrite Mp, Hp.
    apply dict_get_set_same.
  - rewrite M. unfold close_schema. rewrite Mp, Hp. unfold dict_mem.
    now rewrite (fix_kind_get v a "additionalProperties" E) by discriminate.
Qed.

Lemma normalise_value_closes_witness :
  normalise_value insertion_order (JObj labels_node)
  = Ok (JObj [("type", JStr "object"); ("additionalProperties", JBool false)])
  /\ normalise_value insertion_order (JObj open_node) = Ok (JObj open_node)
  /\ exists v',
       JObj [("type", JStr "object"); ("additionalProperties", JBool false)]
       = JObj v'
       /\ (dict_mem preserve_key labels_node = false ->
           dict_get "additionalProperties" v' = Some (JBool false))
       /\ (dict_mem preserve_key labels_node = true ->
           dict_mem "additionalProperties" v'
           = dict_mem "additionalProperties" labels_node).
Proof.
  split; [reflexivity|]. split; [reflexivity|].
  apply (normalise_value_closes insertion_order labels_node). reflexivity.
Defined.

(** ** [update]: the merge of the documents *)

Lemma dict_get_absent (k : string) (d : dict) :
  ~ In k (dict_keys d) -> dict_get k d = None.
Proof.
  induction d as [|[k' x] t IH]; intros N; [reflexivity|].
  cbn [dict_get]. destruct (String.eqb k k') eqn:E.
  - apply String.eqb_eq in E. subst k'. exfalso. apply N. now left.
  - apply IH. intros Hin. apply N. now right.
Qed.

Lemma dict_get_keys (k : string) (d : dict) :
  In k (dict_keys d) <-> dict_mem k d = true.
Proof.
  unfold dict_mem. split.
  - intros Hin. destruct (dict_get k d) eqn:G; [reflexivity|].
    induction d as [|[k' x] t IH]; [destruct Hin|].
    cbn [dict_get] in G. destruct (String.eqb k k') eqn:E; [discriminate G|].
    destruct Hin as [Hk | Hin].
    + cbn in Hk. subst k'. now rewrite String.eqb_refl in E.
    + now apply IH.
  - destruct (dict_get k d) as [x|] eqn:G; [|discriminate]. intros _.
    apply dict_get_In in G. unfold dict_keys.
    change k with (fst (k, x)). now apply in_map.
Qed.

Lemma dict_get_merge (e : dict) :
  NoDup (dict_keys e) ->
  forall d k,
    dict_get k (dict_merge d e)
    = match dict_get k e with
      | Some x => Some x
      | None => dict_get k d
      end.
Proof.
  unfold dict_merge.
  induction e as [|[k0 x0] t IH]; intros N d k; [reflexivity|].
  cbn [dict_keys map fst] in N. apply NoDup_cons_iff in N as [N0 N].
  cbn [fold_left fst snd]. rewrite (IH N). cbn [dict_get].
  destruct (String.eqb k k0) eqn:E.
  - apply String.eqb_eq in E. subst k0.
    rewrite (dict_get_absent k t N0). apply dict_get_set_same.
  - apply String.eqb_neq in E.
    now rewrite dict_get_set_other by congruence.
Qed.

Lemma dict_get_merge_absent (e : dict) :
  forall d k, dict_get k e = None -> dict_get k (dict_merge d e) = dict_get k d.
Proof.
  unfold dict_merge.
  induction e as [|[k0 x0] t IH]; intros d k G; [reflexivity|].
  cbn [dict_get] in G. destruct (String.eqb k k0) eqn:E; [discriminate G|].
  cbn [fold_left fst snd]. rewrite (IH _ _ G).
  apply String.eqb_neq in E. now rewrite dict_get_set_other by congruence.
Qed.

Lemma fetch_paths_app (c : cluster) (l1 l2 : list string) :
  forall acc,
    fetch_paths c (l1 ++ l2) acc
    = (a <- fetch_paths c l1 acc ;; fetch_paths c l2 a).
Proof.
  induction l1 as [|p t IH]; intros acc; [reflexivity|].
  cbn [app fetch_paths].
  destruct (status_code (document c p) =? 200)%Z; [|apply IH].
  destruct (path_schemas (document c p)) as [s| | |]; cbn [bind];
    try reflexivity.
  destruct (py_update acc s); cbn [bind]; try reflexivity. apply IH.
Qed.

Lemma py_update_get (acc acc' : dict) (s : json) (name : string) :
  py_update acc s = Ok acc' ->
  (forall e, s = JObj e -> dict_get name e = None) ->
  dict_get name acc' = dict_get name acc.
Proof.
  intros U N. destruct s as [| | |s|l|e]; try discriminate U.
  - destruct s; [|discriminate U]. now injection U as <-.
  - destruct l; [|discriminate U]. now injection U as <-.
  - cbn [py_update] in U. injection U as <-.
    apply dict_get_merge_absent. now apply N.
Qed.

Lemma fetch_paths_keeps (c : cluster) (name : string) (qs : list string) :
  (forall q e, In q qs -> status_code (document c q) = 200%Z ->
     path_schemas (document c q) = Ok (JObj e) -> dict_get name e = None) ->
  forall acc merged,
    fetch_paths c qs acc = Ok merged -> dict_get name merged = dict_get name acc.
Proof.
  induction qs as [|q t IH]; intros N acc merged H.
  - now injection H as <-.
  - cbn [fetch_paths] in H.
    assert (Nt : forall q' e, In q' t ->
               status_code (document c q') = 200%Z ->
               path_schemas (document c q') = Ok (JObj e) ->
               dict_get name e = None)
      by (intros q' e Hin; apply N; now right).
    destruct (status_code (document c q) =? 200)%Z eqn:S;
      [|exact (IH Nt _ _ H)].
    apply Z.eqb_eq in S. bind_inv H. bind_inv H.
    rewrite (IH Nt _ _ H).
    apply (py_update_get _ _ a); [exact E0|].
    intros e ->. exact (N q e (or_introl eq_refl) S E).
Qed.

(** X14: when several paths define a name, the store gets the definition
    of the last of them in the catalog: a definition merged from a path
    stays until a later path that was fetched defines the same name. *)
Theorem fetch_paths_later_wins
    (c : cluster) (ps qs : list string) (p name : string) (e : dict) (x : json)
    (acc merged : dict) :
  fetch_paths c (ps ++ p :: qs) acc = Ok merged ->
  status_code (document c p) = 200%Z ->
  path_schemas (document c p) = Ok (JObj e) ->
  NoDup (dict_keys e) ->
  dict_get name e = Some x ->
  (forall q e', In q qs -> status_code (document c q) = 200%Z ->
     path_schemas (document c q) = Ok (JObj e') -> dict_get name e' = None) ->
  dict_get name merged = Some x.
Proof.
  intros H S P N G Q. rewrite fetch_paths_app in H. bind_inv H.
  cbn [fetch_paths] in H. apply Z.eqb_eq in S. rewrite S, P in H.
  cbn [bind py_update] in H.
  rewrite (fetch_paths_keeps c name qs Q _ _ H).
  now rewrite (dict_get_merge e N), G.
Qed.

Lemma fetch_paths_later_wins_witness :
  fetch_paths status_twice_cluster ([] ++ "api/v1" :: ["apis/apps/v1"]) []
  = Ok [("Status", JObj [("description", JStr "apps")])]
  /\ path_schemas (document status_twice_cluster "api/v1")
     = Ok (JObj [("Status", JObj [("description", JStr "core")])])
  /\ path_schemas (document status_twice_cluster "apis/apps/v1")
     = Ok (JObj [("Status", JObj [("description", JStr "apps")])])
  /\ dict_get "Status" [("Status", JObj [("description", JStr "apps")])]
     = Some (JObj [("description", JStr "apps")]).
Proof.
  split; [reflexivity|]. split; [reflexivity|]. split; [reflexivity|].
  apply (fetch_paths_later_wins status_twice_cluster ["api/v1"] []
           "apis/apps/v1" "Status"
           [("Status", JObj [("description", JStr "apps")])]
           (JObj [("description", JStr "apps")]) []).
  - reflexivity.
  - reflexivity.
  - reflexivity.
  - repeat constructor. intros [].
  - reflexivity.
  - intros q e' [].
Defined.

Lemma dict_set_keys_in (k k' : string) (x : json) (d : dict) :
  In k' (dict_keys (dict_set k x d)) -> k' = k \/ In k' (dict_keys d).
Proof.
  intros H. apply in_map_iff in H as [[k0 x0] [<- Hin]].
  apply dict_set_In in Hin as [Heq | Hin].
  - injection Heq as -> _. now left.
  - right. change k0 with (fst (k0, x0)). now apply in_map.
Qed.

Lemma dict_merge_keys_in (e : dict) :
  forall d k, In k (dict_keys (dict_merge d e)) ->
    In k (dict_keys d) \/ In k (dict_keys e).
Proof.
  unfold dict_merge.
  induction e as [|[k0 x0] t IH]; intros d k H; [now left|].
  cbn [fold_left fst snd] in H. apply IH in H as [H | H].
  - apply dict_set_keys_in in H as [-> | H]; [right; now left | now left].
  - right. now right.
Qed.

Lemma fetch_paths_sources (c : cluster) (name : string) (ps : list string) :
  forall acc merged,
    fetch_paths c ps acc = Ok merged ->
    In name (dict_keys merged) ->
    In name (dict_keys acc)
    \/ exists p e,
         In p ps /\ status_code (document c p) = 200%Z
         /\ path_schemas (document c p) = Ok (JObj e)
         /\ In name (dict_keys e).
Proof.
  induction ps as [|p t IH]; intros acc merged H Hin.
  - injection H as <-. now left.
  - cbn [fetch_paths] in H.
    destruct (status_code (document c p) =? 200)%Z eqn:S.
    + apply Z.eqb_eq in S. bind_inv H. bind_inv H.
      destruct (IH _ _ H Hin) as [Ha | [q [e [Hq R]]]].
      * destruct a as [| | |s|l|e]; try discriminate E0.
        -- destruct s; [|discriminate E0]. injection E0 as <-. now left.
        -- destruct l; [|discriminate E0]. injection E0 as <-. now left.
        -- cbn [py_update] in E0. injection E0 as <-.
           apply dict_merge_keys_in in Ha as [Ha | Ha]; [now left|].
           right. exists p, e. split; [now left|]. now split.
      * right. exists q, e. split; [now right | exact R].
    + destruct (IH _ _ H Hin) as [Ha | [q [e [Hq R]]]]; [now left|].
      right. exists q, e. split; [now right | exact R].
Qed.

(** X15: a cycle puts no name into the store that it did not read: every
    name [paths] lists after the cycle is defined by the document of a path
    of the catalog that was answered with 200. *)
Theorem update_names_have_a_source
    (set_order : list json -> list json) (c : cluster) (sc sc' : SchemaCache)
    (name : string) :
  update set_order c sc = Ok sc' ->
  In name (paths sc') ->
  exists doc index keys p e,
    resp_json (catalog c) = Ok doc
    /\ py_get doc "paths" = Ok index
    /\ py_keys index = Ok keys
    /\ In p keys
    /\ status_code (document c p) = 200%Z
    /\ path_schemas (document c p) = Ok (JObj e)
    /\ In name (dict_keys e).
Proof.
  intros H Hin.
  destruct (update_cases _ _ _ _ H)
    as [[S ->] | [doc [index [keys [merged [final [S [D [I [K [F [N ->]]]]]]]]]]]].
  - unfold paths in Hin. rewrite store_rebind in Hin. destruct Hin.
  - unfold paths in Hin.
    rewrite store_fill, (normalise_keys _ _ _ N) in Hin.
    destruct (fetch_paths_sources c name keys _ _ F Hin)
      as [[] | [p [e [Hp [Sp [Pp He]]]]]].
    exists doc, index, keys, p, e. now repeat split.
Qed.

Lemma update_names_have_a_source_witness :
  exists sc',
    update insertion_order one_missing_cluster pod_cache = Ok sc'
    /\ In "Job" (paths sc')
    /\ exists doc index keys p e,
         resp_json (catalog one_missing_cluster) = Ok doc
         /\ py_get doc "paths" = Ok index
         /\ py_keys index = Ok keys
         /\ In p keys
         /\ status_code (document one_missing_cluster p) = 200%Z
         /\ path_schemas (document one_missing_cluster p) = Ok (JObj e)
         /\ In "Job" (dict_keys e).
Proof.
  eexists. split; [reflexivity|]. split; [right; now left|].
  eapply (update_names_have_a_source insertion_order one_missing_cluster
            pod_cache).
  - reflexivity.
  - right. now left.
Defined.

(** ** The endpoints *)

(** X16: [/all.json] has one reference for every name of the store, in the
    order of the store, and every name it refers to is a key of the
    [definitions] that [/_definitions.json] serves from the same cache. *)
Theorem all_refs_resolve (sc : SchemaCache) (i : nat) (name : string) :
  nth_error (paths sc) i = Some name ->
  exists refs defs,
    App.all sc = JObj [("oneOf", JArr refs)]
    /\ List.length refs = List.length (paths sc)
    /\ nth_error refs i
       = Some (JObj [("$ref",
                      JStr ("_definitions.json#definitions/" ++ name)%string)])
    /\ App.schemas sc = JObj [("definitions", JObj defs)]
    /\ dict_mem name defs = true.
Proof.
  intros H. unfold App.all, App.schemas.
  eexists. eexists. split; [reflexivity|].
  split; [apply length_map|].
  split.
  { exact (map_nth_error
             (fun path =>
                JObj [("$ref",
                       JStr ("_definitions.json#definitions/" ++ path)%string)])
             i (paths sc) H). }
  split; [reflexivity|].
  apply dict_get_keys. apply nth_error_In in H. exact H.
Qed.

Lemma all_refs_resolve_witness :
  nth_error (paths pod_cache) 0 = Some "Pod"
  /\ exists refs defs,
       App.all pod_cache = JObj [("oneOf", JArr refs)]
       /\ List.length refs = List.length (paths pod_cache)
       /\ nth_error refs 0
          = Some (JObj [("$ref", JStr "_definitions.json#definitions/Pod")])
       /\ App.schemas pod_cache = JObj [("definitions", JObj defs)]
       /\ dict_mem "Pod" defs = true.
Proof.
  split; [reflexivity|].
  exact (all_refs_resolve pod_cache 0 "Pod" eq_refl).
Defined.

(** ** [logging_middleware] *)

(** X17: for a request with a peer address the middleware returns a
    response in every case: the one the handler returned, or, when the
    handler raised, one with status 500, the exception raised again at line
    165 being dropped by the [return] of line 175; the last line logged
    carries the status returned. *)
Theorem logging_middleware_answers
    (request : App.Request) (call_next : App.Response + App.raised)
    (host : string) (port : Z) :
  App.client request = Some (host, port) ->
  exists f r,
    App.logging_middleware request call_next = (f, App.Returned r)
    /\ r = match call_next with
           | inl r0 => r0
           | inr _ => {| App.status_code := 500 |}
           end
    /\ App.log f
       = match call_next with
         | inr (App.Exception name) =>
             [App.log_error "Uncaught exception" (App.Exception name)]
         | _ => []
         end
         ++ [App.log_info "HTTP request" (App.url request) (App.status_code r)
               (App.method request) host port].
Proof.
  intros H. unfold App.logging_middleware, App.try_except_finally.
  destruct call_next as [r0 | [name | name]]; cbn; rewrite H; cbn;
    eexists; eexists; (split; [reflexivity|]); split; reflexivity.
Qed.

Lemma logging_middleware_answers_witness :
  App.client get_all = Some ("127.0.0.1", 40000%Z)
  /\ exists f r,
       App.logging_middleware get_all (inr (App.Exception "RuntimeError"))
       = (f, App.Returned r)
       /\ r = {| App.status_code := 500 |}
       /\ App.log f
          = [App.log_error "Uncaught exception" (App.Exception "RuntimeError")]
            ++ [App.log_info "HTTP request" "http://localhost:8000/all.json"
                  (App.status_code r) "GET" "127.0.0.1" 40000%Z].
Proof.
  split; [reflexivity|].
  exact (logging_middleware_answers get_all
           (inr (App.Exception "RuntimeError")) "127.0.0.1" 40000%Z eq_refl).
Defined.

(** X18: for a request without a peer address the middleware raises
    [AttributeError] from its [finally] block, also when the handler
    returned a response, and logs no line for the request. *)
Theorem logging_middleware_without_client
    (request : App.Request) (call_next : App.Response + App.raised) :
  App.client request = None ->
  exists f,
    App.logging_middleware request call_next
    = (f, App.Raised (App.Exception "AttributeError"))
    /\ forall line, In line (App.log f) ->
         exists err, line = App.log_error "Uncaught exception" err.
Proof.
  intros H. unfold App.logging_middleware, App.try_except_finally.
  destruct call_next as [r0 | [name | name]]; cbn; rewrite H; cbn;
    eexists; (split; [reflexivity|]); cbn; intros line Hin.
  - destruct Hin.
  - destruct Hin as [<- | []]. now eexists.
  - destruct Hin.
Qed.

Lemma logging_middleware_without_client_witness :
  App.client get_all_no_peer = None
  /\ exists f,
       App.logging_middleware get_all_no_peer (inl {| App.status_code := 200 |})
       = (f, App.Raised (App.Exception "AttributeError"))
       /\ forall line, In line (App.log f) ->
            exists err, line = App.log_error "Uncaught exception" err.
Proof.
  split; [reflexivity|].
  exact (logging_middleware_without_client get_all_no_peer
           (inl {| App.status_code := 200 |}) eq_refl).
Defined.

(** ** The kubeconfig *)

Lemma index_by_entry (field : string) (n : string) (x : json)
    (items : list json) :
  forall acc d,
    index_by field items acc = Ok d -> dict_get n d = Some x ->
    dict_get n acc = Some x
    \/ exists c, In c items /\ py_getitem c "name" = Ok (JStr n)
                 /\ py_getitem c field = Ok x.
Proof.
  induction items as [|c t IH]; intros acc d H G.
  - injection H as <-. now left.
  - cbn [index_by] in H. bind_inv H. bind_inv H.
    destruct a as [| | |n0| |]; try discriminate H.
    destruct (IH _ _ H G) as [Ga | [c' [Hin R]]].
    + destruct (String.eqb n0 n) eqn:En.
      * apply String.eqb_eq in En. subst n0.
        rewrite dict_get_set_same in Ga. injection Ga as <-.
        right. exists c. split; [now left | split; assumption].
      * apply String.eqb_neq in En.
        rewrite dict_get_set_other in Ga by exact En. now left.
    + right. exists c'. split; [now right | exact R].
Qed.

Lemma py_lookup_Ok (d : dict) (k y : json) :
  py_lookup d k = Ok y -> exists s, k = JStr s /\ dict_get s d = Some y.
Proof.
  destruct k as [| | |s| |]; try discriminate. cbn [py_lookup].
  destruct (dict_get s d) as [y'|] eqn:G; [|discriminate].
  intros H. injection H as <-. now exists s.
Qed.

Lemma entry_of_index (field : string) (section : json) (items : list json)
    (d : dict) (n : string) (x : json) :
  py_iter section = Ok items -> index_by field items [] = Ok d ->
  dict_get n d = Some x -> entry field section n x.
Proof.
  intros Hi Hx G.
  destruct (index_by_entry field n x items [] d Hx G) as [Ga | [c [Hin [Hn Hf]]]];
    [discriminate Ga|].
  exists items, c. now repeat split.
Qed.

(** X19: when the kubeconfig is read without an exception, the server is
    the [server] of the entry of [clusters] that the context names, the
    context being the entry of [contexts] named by [current-context], and
    the credentials are what the cluster and the entry of [users] named by
    the context hold under the four keys, [None] where they hold nothing. *)
Theorem load_kube_sound (kube server : json) (auth : Auth) :
  load_kube kube = Ok (server, auth) ->
  exists contexts clusters users ctx context user_name cluster_name user cluster,
    py_getitem kube "contexts" = Ok contexts
    /\ py_getitem kube "clusters" = Ok clusters
    /\ py_getitem kube "users" = Ok users
    /\ py_getitem kube "current-context" = Ok (JStr ctx)
    /\ entry "context" contexts ctx context
    /\ py_getitem context "user" = Ok (JStr user_name)
    /\ py_getitem context "cluster" = Ok (JStr cluster_name)
    /\ entry "user" users user_name user
    /\ entry "cluster" clusters cluster_name cluster
    /\ py_getitem cluster "server" = Ok server
    /\ py_get_none cluster "certificate-authority" = Ok (ca_cert auth)
    /\ py_get_none user "client-certificate" = Ok (client_cert auth)
    /\ py_get_none user "client-key" = Ok (client_key auth)
    /\ py_get_none user "token" = Ok (token auth).
Proof.
  unfold load_kube. intros H.
  bind_inv H. rename a into cs, E into Ecs.
  bind_inv H. rename a into cs_items, E into Ecsi.
  bind_inv H. rename a into cmap, E into Ecm.
  bind_inv H. rename a into cl, E into Ecl.
  bind_inv H. rename a into cl_items, E into Ecli.
  bind_inv H. rename a into clmap, E into Eclm.
  bind_inv H. rename a into us, E into Eus.
  bind_inv H. rename a into us_items, E into Eusi.
  bind_inv H. rename a into umap, E into Eum.
  bind_inv H. rename a into ctx, E into Ectx.
  bind_inv H. rename a into context, E into Ec1.
  bind_inv H. rename a into userName, E into Eun.
  bind_inv H. rename a into clusterName, E into Ecn.
  bind_inv H. rename a into user, E into Eu.
  bind_inv H. rename a into cluster, E into Ec.
  bind_inv H. rename a into srv, E into Es.
  bind_inv H. rename a into ca, E into Eca.
  bind_inv H. rename a into ck, E into Eck.
  bind_inv H. rename a into cc, E into Ecc.
  bind_inv H. rename a into tk, E into Etk.
  injection H as <- <-. cbn [ca_cert client_cert client_key token].
  apply py_lookup_Ok in Ec1 as [c [-> Gc]].
  apply py_lookup_Ok in Eu as [u [-> Gu]].
  apply py_lookup_Ok in Ec as [k [-> Gk]].
  exists cs, cl, us, c, context, u, k, user, cluster.
  repeat split; try assumption.
  - exact (entry_of_index _ _ _ _ _ _ Ecsi Ecm Gc).
  - exact (entry_of_index _ _ _ _ _ _ Eusi Eum Gu).
  - exact (entry_of_index _ _ _ _ _ _ Ecli Eclm Gk).
Qed.

Lemma load_kube_sound_witness :
  exists server auth,
    load_kube dev_kube = Ok (server, auth)
    /\ exists contexts clusters users ctx context user_name cluster_name user
              cluster,
         py_getitem dev_kube "contexts" = Ok contexts
         /\ py_getitem dev_kube "clusters" = Ok clusters
         /\ py_getitem dev_kube "users" = Ok users
         /\ py_getitem dev_kube "current-context" = Ok (JStr ctx)
         /\ entry "context" contexts ctx context
         /\ py_getitem context "user" = Ok (JStr user_name)
         /\ py_getitem context "cluster" = Ok (JStr cluster_name)
         /\ entry "user" users user_name user
         /\ entry "cluster" clusters cluster_name cluster
         /\ py_getitem cluster "server" = Ok server
         /\ py_get_none cluster "certificate-authority" = Ok (ca_cert auth)
         /\ py_get_none user "client-certificate" = Ok (client_cert auth)
         /\ py_get_none user "client-key" = Ok (client_key auth)
         /\ py_get_none user "token" = Ok (token auth).
Proof.
  eexists. eexists. split; [reflexivity|].
  apply (load_kube_sound dev_kube). reflexivity.
Defined.

Lemma index_by_app (field : string) (l1 l2 : list json) :
  forall acc,
    index_by field (l1 ++ l2) acc
    = (d <- index_by field l1 acc ;; index_by field l2 d).
Proof.
  induction l1 as [|c t IH]; intros acc; [reflexivity|].
  cbn [app index_by].
  destruct (py_getitem c "name") as [name| | |]; cbn [bind]; try reflexivity.
  destruct (py_getitem c field) as [x| | |]; cbn [bind]; try reflexivity.
  destruct name; try reflexivity. apply IH.
Qed.

Lemma index_by_keeps (field n : string) (items : list json) :
  (forall c, In c items -> py_getitem c "name" <> Ok (JStr n)) ->
  forall acc d, index_by field items acc = Ok d -> dict_get n d = dict_get n acc.
Proof.
  induction items as [|c t IH]; intros N acc d H.
  - now injection H as <-.
  - cbn [index_by] in H. bind_inv H. bind_inv H.
    destruct a as [| | |n0| |]; try discriminate H.
    rewrite (IH (fun c' Hin => N c' (or_intror Hin)) _ _ H).
    apply dict_get_set_other. intros ->.
    exact (N c (or_introl eq_refl) E).
Qed.

(** X20: of several entries of one name in a section of the kubeconfig the
    last one is the one [main] uses. *)
Theorem index_by_last_wins
    (field : string) (pre post : list json) (c : json) (n : string) (x : json)
    (acc d : dict) :
  index_by field (pre ++ c :: post) acc = Ok d ->
  py_getitem c "name" = Ok (JStr n) ->
  py_getitem c field = Ok x ->
  (forall c', In c' post -> py_getitem c' "name" <> Ok (JStr n)) ->
  dict_get n d = Some x.
Proof.
  intros H Hn Hf N. rewrite index_by_app in H. bind_inv H.
  cbn [index_by] in H. rewrite Hn, Hf in H. cbn [bind] in H.
  rewrite (index_by_keeps field n post N _ _ H).
  apply dict_get_set_same.
Qed.

Lemma index_by_last_wins_witness :
  index_by "user"
    ([named "user" "admin" (JObj [("token", JStr "old")])]
     ++ named "user" "admin" (JObj [("client-certificate", JStr "/admin.crt")])
        :: []) []
  = Ok [("admin", JObj [("client-certificate", JStr "/admin.crt")])]
  /\ dict_get "admin" [("admin", JObj [("client-certificate", JStr "/admin.crt")])]
     = Some (JObj [("client-certificate", JStr "/admin.crt")])
  /\ exists server auth,
       load_kube dev_kube = Ok (server, auth) /\ token auth = JNull.
Proof.
  split; [reflexivity|]. split.
  - apply (index_by_last_wins "user"
             [named "user" "admin" (JObj [("token", JStr "old")])] []
             (named "user" "admin"
                (JObj [("client-certificate", JStr "/admin.crt")]))
             "admin" _ []).
    + reflexivity.
    + reflexivity.
    + reflexivity.
    + intros c' [].
  - eexists. eexists. split; reflexivity.
Defined.

(** X21: when the three sections of the kubeconfig are read and
    [current-context] is a name that no entry of [contexts] has, the
    [KeyError] of line 206 is caught and [main] returns without a cache and
    without a server started. *)
Theorem main_unknown_context
    (kube contexts clusters users : json) (cs cl us : list json)
    (cmap clmap umap : dict) (ctx : string) :
  py_getitem kube "contexts" = Ok contexts ->
  py_iter contexts = Ok cs ->
  index_by "context" cs [] = Ok cmap ->
  py_getitem kube "clusters" = Ok clusters ->
  py_iter clusters = Ok cl ->
  index_by "cluster" cl [] = Ok clmap ->
  py_getitem kube "users" = Ok users ->
  py_iter users = Ok us ->
  index_by "user" us [] = Ok umap ->
  py_getitem kube "current-context" = Ok (JStr ctx) ->
  (forall c, In c cs -> py_getitem c "name" <> Ok (JStr ctx)) ->
  load_kube kube = Raise (KeyError ctx) /\ main kube = Ok None.
Proof.
  intros H1 H2 H3 H4 H5 H6 H7 H8 H9 H10 N.
  assert (L : load_kube kube = Raise (KeyError ctx)).
  { unfold load_kube.
    rewrite H1. cbn [bind]. rewrite H2. cbn [bind]. rewrite H3. cbn [bind].
    rewrite H4. cbn [bind]. rewrite H5. cbn [bind]. rewrite H6. cbn [bind].
    rewrite H7. cbn [bind]. rewrite H8. cbn [bind]. rewrite H9. cbn [bind].
    rewrite H10. cbn [bind py_lookup].
    now rewrite (index_by_keeps "context" ctx cs N _ _ H3). }
  split; [exact L|]. unfold main. now rewrite L.
Qed.

Lemma main_unknown_context_witness :
  py_getitem stale_kube "current-context" = Ok (JStr "prod")
  /\ load_kube stale_kube = Raise (KeyError "prod")
  /\ main stale_kube = Ok None.
Proof.
  split; [reflexivity|].
  apply (main_unknown_context stale_kube
           (JArr [named "context" "dev"
                    (JObj [("cluster", JStr "kind"); ("user", JStr "admin")])])
           (JArr []) (JArr [])
           [named "context" "dev"
              (JObj [("cluster", JStr "kind"); ("user", JStr "admin")])]
           [] []
           [("dev", JObj [("cluster", JStr "kind"); ("user", JStr "admin")])]
           [] [] "prod"); try reflexivity.
  intros c [<- | []]. discriminate.
Defined.

(** ** [_get_session] *)

(** X22: a credential that is unset or empty leaves the session as
    [requests] made it: no certificate authority, the library's [verify]; a
    client certificate without its key, or a key without its certificate, no
    [cert]; no token, the library's headers; and no header but
    [Authorization] is ever changed. *)
Theorem get_session_keeps_defaults (auth : Auth) (fresh s : Session) :
  _get_session auth fresh = Ok s ->
  (py_truthy (ca_cert auth) = false -> verify s = verify fresh)
  /\ (py_truthy (client_cert auth) = false \/ py_truthy (client_key auth) = false ->
      cert s = cert fresh)
  /\ (py_truthy (token auth) = false -> headers s = headers fresh)
  /\ (forall h, h <> "Authorization" ->
        dict_get h (headers s) = dict_get h (headers fresh)).
Proof.
  unfold _get_session. intros H.
  assert (B : py_truthy (client_cert auth) = false
              \/ py_truthy (client_key auth) = false ->
              py_truthy (client_cert auth) && py_truthy (client_key auth) = false).
  { intros [-> | ->]; [reflexivity | apply andb_false_r]. }
  destruct (py_truthy (token auth)) eqn:T.
  - destruct (token auth) as [| | |t| |]; try discriminate H.
    injection H as <-. cbn [verify cert headers].
    split; [|split; [|split]].
    + intros C. rewrite C.
      now destruct (py_truthy (client_cert auth) && py_truthy (client_key auth)).
    + intros C. rewrite (B C). now destruct (py_truthy (ca_cert auth)).
    + discriminate.
    + intros h N. rewrite dict_get_set_other by congruence.
      destruct (py_truthy (client_cert auth) && py_truthy (client_key auth));
        destruct (py_truthy (ca_cert auth)); reflexivity.
  - injection H as <-.
    split; [|split; [|split]].
    + intros C. rewrite C.
      now destruct (py_truthy (client_cert auth) && py_truthy (client_key auth)).
    + intros C. rewrite (B C). now destruct (py_truthy (ca_cert auth)).
    + intros _.
      destruct (py_truthy (client_cert auth) && py_truthy (client_key auth));
        destruct (py_truthy (ca_cert auth)); reflexivity.
    + intros h N.
      destruct (py_truthy (client_cert auth) && py_truthy (client_key auth));
        destruct (py_truthy (ca_cert auth)); reflexivity.
Qed.

Lemma get_session_keeps_defaults_witness :
  _get_session cert_only_auth plain_session
  = Ok {| verify := JStr "/ca.crt"; cert := None;
          headers := [("Accept", JStr "*/*")] |}
  /\ (py_truthy (client_cert cert_only_auth) = false
      \/ py_truthy (client_key cert_only_auth) = false)
  /\ cert {| verify := JStr "/ca.crt"; cert := None;
             headers := [("Accept", JStr "*/*")] |}
     = cert plain_session.
Proof.
  split; [reflexivity|]. split; [right; reflexivity|].
  exact (proj1 (proj2 (get_session_keeps_defaults cert_only_auth plain_session
                         _ eq_refl))
           (or_intror eq_refl)).
Defined.

(** ** [update_cache] *)

Section Loop.

Variable time : Type.
Variable later : time -> time -> bool.
Variable plus : time -> Z -> time.
Variable set_order : list json -> list json.

(** X23: as long as the clock read at line 229 is not later than the last
    run plus the interval, the loop calls no update, however many turns it
    takes: the cache and the time of the last run stay as they were. *)
Theorem update_cache_not_due
    (interval : Z) (turns : list (turn time)) (last_run : time)
    (sc : SchemaCache) :
  (forall t, In t turns -> later (now t) (plus last_run interval) = false) ->
  update_cache_from time later plus set_order interval turns last_run sc
  = Looping last_run sc
  \/ update_cache_from time later plus set_order interval turns last_run sc
     = Stopped sc.
Proof.
  induction turns as [|t rest IH]; intros N; [now left|].
  cbn [update_cache_from]. destruct (is_set t); [|now right].
  rewrite (N t (or_introl eq_refl)).
  apply IH. intros t' Hin. apply N. now right.
Qed.

(** X24: an exception of [sc.update()] ends the thread: whatever turns
    would follow, no update is called again. *)
Theorem update_cache_died_for_good
    (interval : Z) (turns more : list (turn time)) (last_run : time)
    (sc : SchemaCache) (e : exn) :
  update_cache_from time later plus set_order interval turns last_run sc
  = Died e ->
  update_cache_from time later plus set_order interval (turns ++ more)
    last_run sc
  = Died e.
Proof.
  revert last_run sc.
  induction turns as [|t rest IH]; intros last_run sc H; [discriminate H|].
  cbn [app update_cache_from] in *.
  destruct (is_set t); [|discriminate H].
  destruct (later (now t) (plus last_run interval)); [|now apply IH].
  destruct (update set_order (cluster_now t) sc); try discriminate H.
  - now apply IH.
  - exact H.
Qed.

End Loop.

Lemma update_cache_not_due_witness :
  (forall t, In t [turn_at 100 one_missing_cluster;
                   turn_at 3700 one_missing_cluster] ->
     Z.gtb (now t) (Z.add 100 3600) = false)
  /\ update_cache_from Z Z.gtb Z.add insertion_order 3600
       [turn_at 100 one_missing_cluster; turn_at 3700 one_missing_cluster]
       100%Z pod_cache
     = Looping 100%Z pod_cache.
Proof.
  split.
  - intros t [<- | [<- | []]]; reflexivity.
  - destruct (update_cache_not_due Z Z.gtb Z.add insertion_order 3600
                [turn_at 100 one_missing_cluster;
                 turn_at 3700 one_missing_cluster] 100%Z pod_cache) as [H | H].
    + intros t [<- | [<- | []]]; reflexivity.
    + exact H.
    + discriminate H.
Defined.

Lemma update_cache_died_for_good_witness :
  update_cache Z Z.gtb Z.add 0%Z insertion_order 3600
    [turn_at 1700000000 one_garbled_cluster] pod_cache
  = Died JSONDecodeError
  /\ update_cache_from Z Z.gtb Z.add insertion_order 3600
       ([turn_at 1700000000 one_garbled_cluster]
        ++ [turn_at 1700003601 one_missing_cluster;
            turn_at 1700007202 one_missing_cluster]) 0%Z pod_cache
     = Died JSONDecodeError.
Proof.
  split; [reflexivity|].
  apply (update_cache_died_for_good Z Z.gtb Z.add insertion_order 3600
           [turn_at 1700000000 one_garbled_cluster]).
  reflexivity.
Defined.

(** * The store after a cycle, and the references after the pass *)

(** ** [update]: the definitions of the paths that were fetched *)

Lemma normalise_get (set_order : list json -> list json) (s : dict) :
  forall s', normalise set_order s = Ok s' ->
    forall name,
      match dict_get name s with
      | Some y =>
          exists y', normalise_value set_order y = Ok y'
                     /\ dict_get name s' = Some y'
      | None => dict_get name s' = None
      end.
Proof.
  unfold normalise.
  induction s as [|[k0 x0] t IH]; intros s' H name; cbn [mapM] in H.
  - injection H as <-. reflexivity.
  - bind_inv H. bind_inv E. injection E as <-. bind_inv H. injection H as <-.
    cbn [dict_get fst snd]. destruct (String.eqb name k0); [now exists a0|].
    now apply IH.
Qed.

(** C8, as the code has it: when every path answered with 200 carries a
    document whose schemas are a mapping, the paths answered otherwise are
    passed over and the fetch loop ends without an exception, whatever the
    number of such paths.  The mapping the cycle goes on to normalise has
    every name defined under a path answered with 200, and under each name
    the definition of the last such path that defines it; a store the cycle
    installs lists those names and holds under each the definition after
    the pass. *)
Theorem update_skips_failed_paths
    (set_order : list json -> list json) (c : cluster) (sc : SchemaCache)
    (doc index : dict) :
  status_code (catalog c) = 200%Z ->
  body (catalog c) = Some (JObj doc) ->
  dict_get "paths" doc = Some (JObj index) ->
  (forall p, In p (dict_keys index) -> status_code (document c p) = 200%Z ->
     exists e, path_schemas (document c p) = Ok (JObj e)
               /\ NoDup (dict_keys e)) ->
  exists merged,
    fetch_paths c (dict_keys index) [] = Ok merged
    /\ update set_order c sc
       = (final <- normalise set_order merged ;;
          Ok (fill (rebind sc []) final))
    /\ (forall p e name,
          In p (dict_keys index) -> status_code (document c p) = 200%Z ->
          path_schemas (document c p) = Ok (JObj e) ->
          dict_mem name e = true ->
          dict_mem name merged = true
          /\ forall sc', update set_order c sc = Ok sc' -> In name (paths sc'))
    /\ (forall ps p qs e name x,
          dict_keys index = ps ++ p :: qs ->
          status_code (document c p) = 200%Z ->
          path_schemas (document c p) = Ok (JObj e) ->
          dict_get name e = Some x ->
          (forall q e', In q qs -> status_code (document c q) = 200%Z ->
             path_schemas (document c q) = Ok (JObj e') ->
             dict_get name e' = None) ->
          dict_get name merged = Some x
          /\ forall sc', update set_order c sc = Ok sc' ->
               exists x', normalise_value set_order x = Ok x'
                          /\ dict_get name (store sc') = Some x').
Proof.
  intros S B P W.
  assert (W0 : forall p, In p (dict_keys index) ->
               status_code (document c p) = 200%Z ->
               exists e, path_schemas (document c p) = Ok (JObj e)).
  { intros p Hp Sp. destruct (W p Hp Sp) as [e [Pe _]]. now exists e. }
  destruct (fetch_paths_collects c (dict_keys index) W0 []) as [merged [F [_ C]]].
  exists merged. split; [exact F|].
  assert (U : update set_order c sc
              = (final <- normalise set_order merged ;;
                 Ok (fill (rebind sc []) final))).
  { unfold update, resp_json. rewrite S, B. simpl. rewrite P. simpl.
    rewrite F. reflexivity. }
  split; [exact U|]. split.
  - intros p e name Hp Sp Pp Hn.
    pose proof (C p e name Hp Sp Pp Hn) as M. split; [exact M|].
    intros sc' H. rewrite U in H. bind_inv H. injection H as <-.
    unfold paths. rewrite store_fill, (normalise_keys _ _ _ E).
    apply dict_mem_get in M as [x G]. apply dict_get_In in G.
    unfold dict_keys. apply in_map_iff. now exists (name, x).
  - intros ps p qs e name x K Sp Pp G Q.
    assert (Hp : In p (dict_keys index))
      by (rewrite K; apply in_or_app; right; now left).
    destruct (W p Hp Sp) as [e0 [Pe N]].
    rewrite Pp in Pe. injection Pe as <-.
    assert (M : dict_get name merged = Some x).
    { pose proof F as F'. rewrite K, fetch_paths_app in F'. bind_inv F'.
      cbn [fetch_paths] in F'. pose proof Sp as Sb. apply Z.eqb_eq in Sb.
      rewrite Sb, Pp in F'. cbn [bind py_update] in F'.
      rewrite (fetch_paths_keeps c name qs Q _ _ F').
      now rewrite (dict_get_merge e N), G. }
    split; [exact M|].
    intros sc' H. rewrite U in H. bind_inv H. injection H as <-.
    rewrite store_fill.
    pose proof (normalise_get set_order merged a E name) as I.
    rewrite M in I. exact I.
Qed.

Lemma update_skips_failed_paths_witness :
  exists merged,
    fetch_paths one_missing_cluster ["api/v1"; "apis/apps/v1"; "apis/batch/v1"] []
    = Ok merged
    /\ update insertion_order one_missing_cluster pod_cache
       = (final <- normalise insertion_order merged ;;
          Ok (fill (rebind pod_cache []) final))
    /\ (forall p e name,
          In p ["api/v1"; "apis/apps/v1"; "apis/batch/v1"] ->
          status_code (document one_missing_cluster p) = 200%Z ->
          path_schemas (document one_missing_cluster p) = Ok (JObj e) ->
          dict_mem name e = true ->
          dict_mem name merged = true
          /\ forall sc', update insertion_order one_missing_cluster pod_cache = Ok sc' ->
                         In name (paths sc'))
    /\ (forall ps p qs e name x,
          ["api/v1"; "apis/apps/v1"; "apis/batch/v1"] = ps ++ p :: qs ->
          status_code (document one_missing_cluster p) = 200%Z ->
          path_schemas (document one_missing_cluster p) = Ok (JObj e) ->
          dict_get name e = Some x ->
          (forall q e', In q qs ->
             status_code (document one_missing_cluster q) = 200%Z ->
             path_schemas (document one_missing_cluster q) = Ok (JObj e') ->
             dict_get name e' = None) ->
          dict_get name merged = Some x
          /\ forall sc', update insertion_order one_missing_cluster pod_cache = Ok sc' ->
               exists x', normalise_value insertion_order x = Ok x'
                          /\ dict_get name (store sc') = Some x').
Proof.
  apply (update_skips_failed_paths insertion_order one_missing_cluster pod_cache
           [("paths", JObj [("api/v1", JObj []); ("apis/apps/v1", JObj []);
                            ("apis/batch/v1", JObj [])])]
           [("api/v1", JObj []); ("apis/apps/v1", JObj []); ("apis/batch/v1", JObj [])]).
  - reflexivity.
  - reflexivity.
  - reflexivity.
  - intros p [<- | [<- | [<- | []]]] S.
    + eexists. split; [reflexivity|]. repeat constructor. intros [].
    + discriminate S.
    + eexists. split; [reflexivity|]. repeat constructor. intros [].
Defined.

(** The store of the witness: the two definitions that were fetched, after
    the pass. *)
Lemma update_one_missing_store :
  exists sc',
    update insertion_order one_missing_cluster pod_cache = Ok sc'
    /\ store sc'
       = [("Pod", JObj [("type", JStr "object");
                        ("additionalProperties", JBool false)]);
          ("Job", JObj [("type", JStr "object");
                        ("additionalProperties", JBool false)])].
Proof. eexists. split; reflexivity. Qed.

(** ** The [$ref] strings of a value *)

Lemma all_refs_JObj (d : dict) :
  all_refs (JObj d) = own_ref d ++ flat_map (fun kv => all_refs (snd kv)) d.
Proof. reflexivity. Qed.

Lemma all_refs_JArr (l : list json) : all_refs (JArr l) = flat_map all_refs l.
Proof. reflexivity. Qed.

Lemma all_refs_entry (k : string) (x : json) (d : dict) (r : string) :
  In (k, x) d -> In r (all_refs x) -> In r (all_refs (JObj d)).
Proof.
  intros Hin Hr. rewrite all_refs_JObj. apply in_or_app. right.
  apply in_flat_map. now exists (k, x).
Qed.

Lemma all_refs_element (y : json) (l : list json) (r : string) :
  In y l -> In r (all_refs y) -> In r (all_refs (JArr l)).
Proof.
  intros Hin Hr. rewrite all_refs_JArr. apply in_flat_map. now exists y.
Qed.

Lemma all_refs_own (d : dict) (s : string) :
  dict_get "$ref" d = Some (JStr s) -> In s (all_refs (JObj d)).
Proof.
  intros G. rewrite all_refs_JObj. apply in_or_app. left.
  unfold own_ref. rewrite G. now left.
Qed.

Lemma all_refs_hashable (x : json) : hashable x = true -> all_refs x = [].
Proof. destruct x; try reflexivity; discriminate. Qed.

Lemma all_refs_hashable_list (l : list json) :
  forallb hashable l = true -> all_refs (JArr l) = [].
Proof.
  rewrite all_refs_JArr. induction l as [|x t IH]; intros H; [reflexivity|].
  cbn [forallb] in H. apply andb_true_iff in H as [Hx Ht].
  cbn [flat_map]. now rewrite (all_refs_hashable x Hx), (IH Ht).
Qed.

Lemma all_refs_getitem (k : json) (f : string) (e : json) (r : string) :
  py_getitem k f = Ok e -> In r (all_refs e) -> In r (all_refs k).
Proof.
  destruct k as [| | | | |d]; try discriminate. cbn [py_getitem].
  destruct (dict_get f d) as [y|] eqn:G; [|discriminate].
  intros H Hr. injection H as ->. apply dict_get_In in G.
  exact (all_refs_entry f e d r G Hr).
Qed.

Lemma chars_strings (s : string) (k : json) :
  In k (chars s) -> all_refs k = [].
Proof.
  induction s as [|c t IH]; intros H; [destruct H|].
  destruct H as [<- | H]; [reflexivity | now apply IH].
Qed.

Lemma all_refs_iter (g : json) (items : list json) (k : json) (r : string) :
  py_iter g = Ok items -> In k items -> In r (all_refs k) -> In r (all_refs g).
Proof.
  destruct g as [| | |s|l|d]; try discriminate; cbn [py_iter];
    intros H Hin Hr; injection H as <-.
  - rewrite (chars_strings s k Hin) in Hr. destruct Hr.
  - exact (all_refs_element k l r Hin Hr).
  - apply in_map_iff in Hin as [n [<- _]]. destruct Hr.
Qed.

Lemma all_refs_set (k : string) (x : json) (d : dict) (r : string) :
  k <> "$ref" ->
  In r (all_refs (JObj (dict_set k x d))) ->
  In r (all_refs x) \/ In r (all_refs (JObj d)).
Proof.
  intros N H. rewrite all_refs_JObj in H. apply in_app_or in H as [H | H].
  - right. rewrite all_refs_JObj. apply in_or_app. left.
    unfold own_ref in *. now rewrite dict_get_set_other in H by exact N.
  - apply in_flat_map in H as [[k' x'] [Hin Hr]]. cbn [snd] in Hr.
    apply dict_set_In in Hin as [Heq | Hin].
    + injection Heq as -> ->. now left.
    + right. exact (all_refs_entry k' x' d r Hin Hr).
Qed.

(** ** Where the references of a result come from *)

Lemma collect_kinds_sources (items : list json) :
  forall acc enum, collect_kinds items acc = Ok enum ->
    forall e, In e enum ->
      In e acc \/ exists k, In k items /\ py_getitem k "kind" = Ok e.
Proof.
  induction items as [|k t IH]; intros acc enum H e He.
  - injection H as <-. now left.
  - cbn [collect_kinds] in H. bind_inv H.
    destruct (IH _ _ H e He) as [Ha | [k' [Hin G]]].
    + destruct (list_contains a acc); [now left|].
      apply in_app_or in Ha as [Ha | [<- | []]]; [now left|].
      right. exists k. split; [now left | exact E].
    + right. exists k'. split; [now right | exact G].
Qed.

Lemma collect_api_versions_sources (items : list json) :
  forall acc enum, collect_api_versions items acc = Ok enum ->
    forall e, In e enum ->
      In e acc \/ exists k, In k items /\ api_version_of k = Ok e.
Proof.
  induction items as [|k t IH]; intros acc enum H e He.
  - injection H as <-. now left.
  - cbn [collect_api_versions] in H. bind_inv H.
    destruct (list_contains a acc).
    + destruct (IH _ _ H e He) as [Ha | [k' [Hin G]]]; [now left|].
      right. exists k'. split; [now right | exact G].
    + bind_inv H.
      destruct (IH _ _ H e He) as [Ha | [k' [Hin G]]].
      * apply in_app_or in Ha as [Ha | [<- | []]]; [now left|].
        right. exists k. split; [now left | exact E0].
      * right. exists k'. split; [now right | exact G].
Qed.

Lemma api_version_of_refs (k e : json) (r : string) :
  api_version_of k = Ok e -> In r (all_refs e) -> In r (all_refs k).
Proof.
  unfold api_version_of. intros H Hr. bind_inv H. bind_inv H.
  destruct (0 <? a0)%nat.
  - bind_inv H. destruct a as [| | |g| |]; try discriminate H.
    destruct a1 as [| | |ver| |]; try discriminate H.
    injection H as <-. destruct Hr.
  - exact (all_refs_getitem k "version" e r H Hr).
Qed.

Lemma fix_property_refs (f : string)
    (collect : list json -> list json -> result (list json)) (v v1 : dict) :
  f <> "$ref" ->
  (forall items enum e r,
     collect items [] = Ok enum -> In e enum -> In r (all_refs e) ->
     exists k, In k items /\ In r (all_refs k)) ->
  fix_property f collect v = Ok v1 ->
  forall r, In r (all_refs (JObj v1)) -> In r (all_refs (JObj v)).
Proof.
  intros N Hc H r Hr.
  destruct (fix_property_cases _ _ _ _ H) as [props [Gp C]].
  destruct C as [[_ ->] | [pd [nd [g [items [enum [-> [Gn [Gg [Gi [Ce ->]]]]]]]]]]];
    [exact Hr|].
  apply dict_get_In in Gp. apply dict_get_In in Gn. apply dict_get_In in Gg.
  apply all_refs_set in Hr as [Hr | Hr]; [|exact Hr | discriminate].
  apply all_refs_set in Hr as [Hr | Hr];
    [|exact (all_refs_entry "properties" (JObj pd) v r Gp Hr) | exact N].
  apply all_refs_set in Hr as [Hr | Hr]; [| | discriminate].
  - rewrite all_refs_JArr in Hr. apply in_flat_map in Hr as [e [He Hr]].
    destruct (Hc items enum e r Ce He Hr) as [k [Hk Hrk]].
    pose proof (all_refs_iter g items k r Gi Hk Hrk) as Hg.
    exact (all_refs_entry gvk_key g v r Gg Hg).
  - apply (all_refs_entry "properties" (JObj pd) v r Gp).
    exact (all_refs_entry f (JObj nd) pd r Gn Hr).
Qed.

Lemma fix_kind_refs (v v' : dict) (r : string) :
  fix_kind v = Ok v' -> In r (all_refs (JObj v')) -> In r (all_refs (JObj v)).
Proof.
  unfold fix_kind. destruct (dict_mem gvk_key v);
    [|intros H Hr; now injection H as <-].
  intros H Hr. bind_inv H.
  apply (fix_property_refs "kind" collect_kinds v a); [discriminate | | exact E |].
  - intros items enum e r' Ce He Hr'.
    destruct (collect_kinds_sources items [] enum Ce e He) as [[] | [k [Hk G]]].
    exists k. split; [exact Hk | exact (all_refs_getitem k "kind" e r' G Hr')].
  - apply (fix_property_refs "apiVersion" collect_api_versions a v');
      [discriminate | | exact H | exact Hr].
    intros items enum e r' Ce He Hr'.
    destruct (collect_api_versions_sources items [] enum Ce e He)
      as [[] | [k [Hk G]]].
    exists k. split; [exact Hk | exact (api_version_of_refs k e r' G Hr')].
Qed.

Lemma close_schema_refs (v : dict) (r : string) :
  In r (all_refs (JObj (close_schema v))) -> In r (all_refs (JObj v)).
Proof.
  unfold close_schema. destruct (dict_mem preserve_key v);
    [exact (fun H => H)|].
  intros H. apply all_refs_set in H as [[] | H]; [exact H | discriminate].
Qed.

Lemma rewrite_ref_string_step (a x : string) :
  no_hash a = true ->
  rewrite_ref_string (a ++ components_prefix ++ x)%string
  = (a ++ definitions_prefix ++ rewrite_ref_string x)%string.
Proof.
  intros Ha. induction a as [|c a IH].
  - cbn [String.append]. apply rewrite_ref_string_prefix.
  - cbn [no_hash] in Ha. apply andb_true_iff in Ha as [Hc Ha].
    cbn [String.append].
    rewrite rewrite_ref_string_miss.
    + now rewrite (IH Ha).
    + unfold components_prefix. rewrite starts_with_cons.
      apply negb_true_iff in Hc. rewrite Ascii.eqb_sym in Hc. now rewrite Hc.
Qed.

Section Sources.

Variable set_order : list json -> list json.
Hypothesis set_order_spec : set_order_ok set_order.

Lemma hoist_allOf_entry (v v1 : dict) (k : string) (x : json) (r : string) :
  hoist_allOf v = Ok v1 -> In (k, x) v1 -> In r (all_refs x) ->
  In r (all_refs (JObj v)).
Proof.
  intros H Hin Hr. apply hoist_allOf_cases in H as [-> | [r' [G ->]]].
  - exact (all_refs_entry k x v r Hin Hr).
  - apply dict_set_In in Hin as [Heq | Hin].
    + injection Heq as -> ->. apply dict_get_In in G.
      apply (all_refs_entry "allOf" _ v r G).
      apply (all_refs_element (JObj [("$ref", r')])); [now left|].
      apply (all_refs_entry "$ref" r'); [now left | exact Hr].
    + apply dict_pop_In in Hin. exact (all_refs_entry k x v r Hin Hr).
Qed.

Lemma cleanup_node_entry (v a : dict) (k : string) (x : json) (r : string) :
  cleanup_node set_order v = Ok a -> In (k, x) a -> In r (all_refs x) ->
  In r (all_refs (JObj v)).
Proof.
  unfold cleanup_node. intros H Hin Hr. bind_inv H. rename a0 into v1.
  assert (Hin1 : In (k, x) v1).
  { apply dedup_enum_cases in H as [-> | [l [G [F ->]]]].
    - unfold rewrite_ref in Hin.
      destruct (dict_get "$ref" v1) as [[| | |s0| |]|]; try exact Hin.
      apply dict_set_In in Hin as [Heq | Hin]; [|exact Hin].
      injection Heq as -> ->. destruct Hr.
    - apply dict_set_In in Hin as [Heq | Hin].
      + injection Heq as -> ->.
        rewrite (all_refs_hashable_list _
                   (set_order_hashable set_order set_order_spec l F)) in Hr.
        destruct Hr.
      + unfold rewrite_ref in Hin.
        destruct (dict_get "$ref" v1) as [[| | |s0| |]|]; try exact Hin.
        apply dict_set_In in Hin as [Heq | Hin]; [|exact Hin].
        injection Heq as -> ->. destruct Hr. }
  pose proof (hoist_allOf_entry _ _ k x r E Hin1 Hr) as Hp.
  rewrite all_refs_JObj in Hp. rewrite all_refs_JObj.
  apply in_app_or in Hp as [Hp | Hp]; apply in_or_app.
  - left. unfold own_ref in *.
    now rewrite dict_get_pop_other in Hp by discriminate.
  - right. apply in_flat_map in Hp as [kv [Hkv Hq]].
    apply in_flat_map. exists kv. split; [|exact Hq].
    exact (dict_pop_In _ _ _ Hkv).
Qed.

Lemma cleanup_node_ref_source (v a : dict) (r : string) :
  cleanup_node set_order v = Ok a ->
  dict_get "$ref" a = Some (JStr r) ->
  exists r0, In r0 (all_refs (JObj v)) /\ r = rewrite_ref_string r0.
Proof.
  unfold cleanup_node. intros H G. bind_inv H. rename a0 into v1.
  rewrite (dedup_enum_get _ _ _ "$ref" H) in G by discriminate.
  unfold rewrite_ref in G.
  destruct (dict_get "$ref" v1) as [[| | |s0| |]|] eqn:R;
    try (rewrite R in G; discriminate G).
  rewrite dict_get_set_same in G. injection G as <-.
  exists s0. split; [|reflexivity].
  apply hoist_allOf_cases in E as [-> | [r' [Ga ->]]].
  - rewrite dict_get_pop_other in R by discriminate.
    exact (all_refs_own v s0 R).
  - rewrite dict_get_set_same in R. injection R as ->.
    rewrite dict_get_pop_other in Ga by discriminate.
    apply dict_get_In in Ga.
    apply (all_refs_entry "allOf" _ v s0 Ga).
    cbn. now left.
Qed.

Lemma cleanup_fuel_sources (n : nat) :
  forall v v', cleanup_fuel set_order n v = Ok v' ->
    forall r, In r (visited_refs (JObj v')) ->
      exists r0, In r0 (all_refs (JObj v)) /\ r = rewrite_ref_string r0.
Proof.
  induction n as [|n IH]; intros v v' H r Hr; [discriminate H|].
  rewrite cleanup_fuel_S in H. bind_inv H.
  change (In r (own_ref v'
                ++ flat_map
                     (fun kv =>
                        match snd kv with
                        | JObj _ => visited_refs (snd kv)
                        | JArr l =>
                            flat_map
                              (fun y => match y with
                                        | JObj _ => visited_refs y
                                        | _ => []
                                        end) l
                        | _ => []
                        end) v')) in Hr.
  apply in_app_or in Hr as [Hr | Hr].
  - unfold own_ref in Hr.
    destruct (dict_get "$ref" v') as [[| | |s| |]|] eqn:G; try destruct Hr.
    + subst r.
      pose proof (cleanup_items_get _ _ _ H "$ref") as I.
      destruct (dict_get "$ref" a) as [x|] eqn:Ga; [|congruence].
      destruct I as [x' [Cx Gx]]. rewrite G in Gx. injection Gx as <-.
      apply cleanup_value_JStr in Cx. subst x.
      exact (cleanup_node_ref_source _ _ _ E Ga).
    + destruct H0.
  - apply in_flat_map in Hr as [[k' x'] [Hin Hr]]. cbn [snd] in Hr.
    apply cleanup_items_entries in H.
    destruct (Forall2_in_r _ _ _ H _ Hin) as [[k x] [Hkx [_ Cx]]].
    cbn [snd] in Cx.
    destruct x' as [| | | |l'|d']; try destruct Hr.
    + apply cleanup_value_to_JArr in Cx as [l [-> M]].
      apply in_flat_map in Hr as [y' [Hy' Hr]].
      apply mapM_Forall2 in M.
      destruct (Forall2_in_r _ _ _ M _ Hy') as [y [Hy Cy]].
      destruct y' as [| | | | |d']; try destruct Hr.
      apply cleanup_element_to_JObj in Cy as [d [-> Cd]].
      destruct (IH _ _ Cd r Hr) as [r0 [Hr0 ->]].
      exists r0. split; [|reflexivity].
      apply (cleanup_node_entry v a k (JArr l) r0 E Hkx).
      exact (all_refs_element (JObj d) l r0 Hy Hr0).
    + apply cleanup_value_to_JObj in Cx as [d [-> Cd]].
      destruct (IH _ _ Cd r Hr) as [r0 [Hr0 ->]].
      exists r0. split; [|reflexivity].
      exact (cleanup_node_entry v a k (JObj d) r0 E Hkx Hr0).
Qed.

End Sources.

(** ** The references after the pass *)

Lemma cleanup_schema_list_entry
    (set_order : list json -> list json) (v v' : dict) (k : string)
    (l : list json) :
  cleanup_schema set_order v = Ok v' -> plain_key k ->
  dict_get k v = Some (JArr l) ->
  exists l',
    dict_get k v' = Some (JArr l')
    /\ Forall2 (fun y y' => match y with
                            | JObj _ => True
                            | _ => y' = y
                            end) l l'.
Proof.
  intros H P G. rewrite cleanup_schema_unfold in H. bind_inv H.
  pose proof (cleanup_node_get set_order v a k E P) as Gk.
  pose proof (cleanup_items_get _ _ _ H k) as I. rewrite Gk, G in I.
  destruct I as [x' [Cx Gx]]. cbn [cleanup_value] in Cx. bind_inv Cx.
  injection Cx as <-. exists a0. split; [exact Gx|].
  apply mapM_Forall2 in E0.
  clear G Gx. induction E0 as [|y y' t t' Cy _ IH]; constructor; [|exact IH].
  destruct y; try exact I; injection Cy as <-; reflexivity.
Qed.

(** C4, as the code has it: after a completed pass every definition that is
    a dict is the normalised definition of the same name, and the [$ref]
    string of every dict the traversal visits in it (the definition, the
    values that are dicts, the dicts that are elements of a value that is a
    list) has no occurrence of [#/components/schemas/] and is the rewrite of
    a [$ref] string of the source definition; the rewrite puts
    [#/definitions/] for each [#/components/schemas/] it meets and keeps a
    string without one.  A value that is neither a dict nor a list with a
    dict among its elements is handed back as it is, at the top of a
    definition and at every depth; and in every call of [_cleanup_schema]
    an element of a list value that is not a dict, a list among them, stays
    as it is in its place: a dict inside a list inside a list keeps its
    [$ref]. *)
Theorem normalise_rewrites_visited_refs
    (set_order : list json -> list json) (s s' : dict) :
  set_order_ok set_order ->
  normalise set_order s = Ok s' ->
  (forall name v', In (name, JObj v') s' ->
     exists v,
       In (name, JObj v) s
       /\ normalise_value set_order (JObj v) = Ok (JObj v')
       /\ (forall r, In r (visited_refs (JObj v')) ->
             occurs components_prefix r = false
             /\ exists r0, In r0 (all_refs (JObj v))
                           /\ r = rewrite_ref_string r0)
       /\ (forall k x,
             plain_key k -> k <> "properties"%string ->
             k <> "additionalProperties"%string ->
             dict_get k v = Some x -> passed_over x = true ->
             dict_get k v' = Some x))
  /\ (forall a x, no_hash a = true ->
        rewrite_ref_string (a ++ components_prefix ++ x)%string
        = (a ++ definitions_prefix ++ rewrite_ref_string x)%string)
  /\ (forall r0, occurs components_prefix r0 = false ->
        rewrite_ref_string r0 = r0)
  /\ (forall rec x, passed_over x = true -> cleanup_value rec x = Ok x)
  /\ (forall v v' k l,
        cleanup_schema set_order v = Ok v' -> plain_key k ->
        dict_get k v = Some (JArr l) ->
        exists l',
          dict_get k v' = Some (JArr l')
          /\ Forall2 (fun y y' => match y with
                                  | JObj _ => True
                                  | _ => y' = y
                                  end) l l').
Proof.
  intros Hs H. split; [|split; [|split; [|split]]].
  - intros name v' Hin. apply normalise_entries in H.
    destruct (Forall2_in_r _ _ _ H _ Hin) as [[k x] [Hkx [Hk N]]].
    cbn [fst snd] in Hk, N. subst k.
    destruct x as [| | | | |v]; try discriminate N.
    exists v. split; [exact Hkx|]. split; [exact N|].
    unfold normalise_value in N. bind_inv N. bind_inv N. injection N as <-.
    split.
    + intros r Hr. split; [exact (cleanup_fuel_refs set_order _ _ _ E0 r Hr)|].
      destruct (cleanup_fuel_sources set_order Hs _ _ _ E0 r Hr) as [r0 [Hr0 ->]].
      exists r0. split; [|reflexivity].
      apply close_schema_refs in Hr0. exact (fix_kind_refs v a r0 E Hr0).
    + intros k x P N1 N2 G Px.
      apply (proj2 (cleanup_schema_plain_entry set_order _ _ k E0 P)); [|exact Px].
      rewrite close_schema_get by exact N2.
      now rewrite (fix_kind_get v a k E N1).
  - exact rewrite_ref_string_step.
  - exact rewrite_ref_string_fixed.
  - intros rec x Px. exact (cleanup_value_passed_over rec x Px).
  - intros v v' k l C P G. exact (cleanup_schema_list_entry set_order v v' k l C P G).
Qed.

Lemma normalise_rewrites_visited_refs_witness :
  set_order_ok insertion_order
  /\ normalise insertion_order two_definitions
     = Ok [("Foo", JObj [("additionalProperties", JBool false);
                         ("$ref", JStr "#/definitions/Foo")]);
           ("Deep", JObj [("items", JArr [JArr [ref_node "#/components/schemas/Foo"]]);
                          ("additionalProperties", JBool false)])]
  /\ (forall name v',
        In (name, JObj v')
          [("Foo", JObj [("additionalProperties", JBool false);
                         ("$ref", JStr "#/definitions/Foo")]);
           ("Deep", JObj [("items", JArr [JArr [ref_node "#/components/schemas/Foo"]]);
                          ("additionalProperties", JBool false)])] ->
        exists v,
          In (name, JObj v) two_definitions
          /\ normalise_value insertion_order (JObj v) = Ok (JObj v')
          /\ (forall r, In r (visited_refs (JObj v')) ->
                occurs components_prefix r = false
                /\ exists r0, In r0 (all_refs (JObj v))
                              /\ r = rewrite_ref_string r0)
          /\ (forall k x,
                plain_key k -> k <> "properties"%string ->
                k <> "additionalProperties"%string ->
                dict_get k v = Some x -> passed_over x = true ->
                dict_get k v' = Some x))
  /\ (forall a x, no_hash a = true ->
        rewrite_ref_string (a ++ components_prefix ++ x)%string
        = (a ++ definitions_prefix ++ rewrite_ref_string x)%string)
  /\ (forall r0, occurs components_prefix r0 = false ->
        rewrite_ref_string r0 = r0)
  /\ (forall rec x, passed_over x = true -> cleanup_value rec x = Ok x)
  /\ (forall v v' k l,
        cleanup_schema insertion_order v = Ok v' -> plain_key k ->
        dict_get k v = Some (JArr l) ->
        exists l',
          dict_get k v' = Some (JArr l')
          /\ Forall2 (fun y y' => match y with
                                  | JObj _ => True
                                  | _ => y' = y
                                  end) l l').
Proof.
  split; [exact insertion_order_ok|]. split; [reflexivity|].
  apply (normalise_rewrites_visited_refs insertion_order two_definitions).
  - exact insertion_order_ok.
  - reflexivity.
Defined.

(** The two definitions of the witness: the visited reference of [Foo] is
    the rewrite of the one its source has, and the value of [items] in
    [Deep], a list with no dict among its elements, is passed over with the
    reference in it. *)
Lemma normalise_two_definitions_refs :
  all_refs (JObj allOf_ref_node) = ["#/components/schemas/Foo"%string]
  /\ visited_refs (JObj [("additionalProperties", JBool false);
                         ("$ref", JStr "#/definitions/Foo")])
     = ["#/definitions/Foo"%string]
  /\ rewrite_ref_string "#/components/schemas/Foo" = "#/definitions/Foo"%string
  /\ passed_over (JArr [JArr [ref_node "#/components/schemas/Foo"]]) = true
  /\ visited_refs (JObj [("items", JArr [JArr [ref_node "#/components/schemas/Foo"]]);
                         ("additionalProperties", JBool false)])
     = []
  /\ rewrite_ref_string "a.json#/components/schemas/A#/components/schemas/B"
     = "a.json#/definitions/A#/definitions/B"%string.
Proof. repeat split. Qed.
